(** * QueryAgent: batch query construction pipeline

    A shallow embedding of the parts of [query_agent] that the pipeline's
    specification talks about:

    - [spec.py]            : [QuerySpec], [normalize_search_queries],
                             [normalized_level], [normalized_orientation];
    - [inverse_utils.py]   : [build_inverse_spec], [expand_with_inverse_specs];
    - [ground_truth.py]    : [_is_viable_ground_truth], [_primary_score],
                             [select_ground_truth_bundle];
    - [agent.py]           : [_relax_search_query], [run_search],
                             [_post_process] and its four transforms,
                             [generate_batch].

    Python values are modelled as follows.  A [str] is the list of its Unicode
    code points; a [dict] coming from JSON is an association list in insertion
    order; [set]s and the search cache are stdpp [gset]s and [gmap]s;
    exceptions are an explicit error type; network collaborators (the search
    backend, the reachability probe) are parameters. *)

From Stdlib Require Import ZArith NArith String Ascii DecimalString.
From stdpp Require Import base decidable option list gmap sorting.

Local Open Scope N_scope.
#[local] Set Warnings "-clear-no-such-hyp".

(** ** Python strings *)

Module Py.

(** A Python [str]: a sequence of code points. *)
Definition str := list N.

(** UTF-8 decoding, used only to write the source's literals down. *)
Fixpoint utf8_decode (bs : list N) : str :=
  match bs with
  | [] => []
  | b :: t =>
      if b <? 128 then b :: utf8_decode t
      else if b <? 224 then
        match t with
        | b1 :: t' => ((b - 192) * 64 + (b1 - 128)) :: utf8_decode t'
        | _ => []
        end
      else if b <? 240 then
        match t with
        | b1 :: b2 :: t' =>
            ((b - 224) * 4096 + (b1 - 128) * 64 + (b2 - 128)) :: utf8_decode t'
        | _ => []
        end
      else
        match t with
        | b1 :: b2 :: b3 :: t' =>
            ((b - 240) * 262144 + (b1 - 128) * 4096 + (b2 - 128) * 64 + (b3 - 128))
              :: utf8_decode t'
        | _ => []
        end
  end.

Definition lit (s : string) : str :=
  utf8_decode (map N_of_ascii (list_ascii_of_string s)).

(** [str.isspace] for one character; also the class [\s] of [re] on [str]
    patterns. *)
Definition isspace (c : N) : bool :=
  ((9 <=? c) && (c <=? 13)) || ((28 <=? c) && (c <=? 32))
  || (c =? 133) || (c =? 160) || (c =? 5760)
  || ((8192 <=? c) && (c <=? 8202))
  || (c =? 8232) || (c =? 8233) || (c =? 8239) || (c =? 8287) || (c =? 12288).

Definition is_upper_ascii (c : N) : bool := (65 <=? c) && (c <=? 90).
Definition is_lower_ascii (c : N) : bool := (97 <=? c) && (c <=? 122).
Definition is_digit_ascii (c : N) : bool := (48 <=? c) && (c <=? 57).

(** [str.lower] and [str.upper].  The case mapping is exact on ASCII; a code
    point outside ASCII is left as it is (the texts handled here are ASCII
    and CJK, and CJK has no case). *)
Definition lower_char (c : N) : N := if is_upper_ascii c then c + 32 else c.
Definition upper_char (c : N) : N := if is_lower_ascii c then c - 32 else c.
Definition lower (s : str) : str := map lower_char s.
Definition upper (s : str) : str := map upper_char s.

Fixpoint lstrip (s : str) : str :=
  match s with
  | c :: t => if isspace c then lstrip t else s
  | [] => []
  end.
Definition rstrip (s : str) : str := rev (lstrip (rev s)).
Definition strip (s : str) : str := rstrip (lstrip s).

Definition eqb (a b : str) : bool := bool_decide (a = b).

(** [s.startswith(p)] *)
Fixpoint startswith (s p : str) : bool :=
  match p, s with
  | [], _ => true
  | x :: p', y :: s' => (x =? y) && startswith s' p'
  | _ :: _, [] => false
  end.

(** [s.endswith(p)] *)
Definition endswith (s p : str) : bool := startswith (rev s) (rev p).

(** [sub in s] *)
Fixpoint contains (s sub : str) : bool :=
  startswith s sub ||
  match s with
  | [] => false
  | _ :: t => contains t sub
  end.

(** [sep.join(parts)] *)
Fixpoint join (sep : str) (parts : list str) : str :=
  match parts with
  | [] => []
  | [p] => p
  | p :: rest => p ++ sep ++ join sep rest
  end.

(** [str(n)] for an integer. *)
Definition of_N (n : N) : str :=
  map N_of_ascii (list_ascii_of_string (NilEmpty.string_of_uint (N.to_uint n))).
Definition of_Z (z : Z) : str :=
  match z with
  | Zneg p => 45 :: of_N (Npos p)
  | _ => of_N (Z.to_N z)
  end.

(** Python truthiness of an optional string: [x or default]. *)
Definition or_else (x : option str) (d : str) : str :=
  match x with
  | Some ((_ :: _) as s) => s
  | _ => d
  end.

End Py.

Abbreviation pystr := Py.str.
Notation "'u8' s" := (Py.lit s%string) (at level 1, s at level 0, only parsing).

(** ** The fragment of [re] that the source uses

    Every pattern in the source is an alternation of concatenations of:
    one character of a class, a greedy starred class, a greedy optional
    literal group, and the word-boundary assertion.  Matching follows [re]:
    leftmost position first, alternatives left to right, greedy repetition
    with backtracking.  None of the source's patterns can match the empty
    string, so [re]'s rules for empty matches do not arise: an empty match is
    treated as no match. *)

Module Re.

Inductive atom :=
  | Chr (p : N -> bool)
  | Star (p : N -> bool)
  | Opt (ps : list (N -> bool))
  | WordB.

Definition pattern := list atom.
Definition regex := list pattern.

(** A literal character, compared exactly. *)
Definition ch (c : N) : N -> bool := fun x => x =? c.

(** A literal character under [re.IGNORECASE]: both ASCII cases, and the
    four code points that [re] folds onto ASCII letters (U+0130 and U+0131
    onto i, U+017F onto s, U+212A onto k). *)
Definition ci (c : N) : N -> bool := fun x =>
  (Py.lower_char x =? Py.lower_char c)
  || ((Py.lower_char c =? 105) && ((x =? 304) || (x =? 305)))
  || ((Py.lower_char c =? 115) && (x =? 383))
  || ((Py.lower_char c =? 107) && (x =? 8490)).

Definition notspace (c : N) : bool := negb (Py.isspace c).

(** [\w]: ASCII letters, digits and underscore; outside ASCII, every code
    point except white space and the punctuation blocks (Latin-1 signs,
    general punctuation, CJK and full-width punctuation).  Python consults
    the Unicode database here; this table covers the scripts of the source's
    own texts. *)
Definition is_word (c : N) : bool :=
  Py.is_upper_ascii c || Py.is_lower_ascii c || Py.is_digit_ascii c || (c =? 95)
  || ((128 <=? c) && negb (Py.isspace c)
      && negb ((c <=? 191) && negb ((c =? 170) || (c =? 181) || (c =? 186)))
      && negb ((c =? 215) || (c =? 247))
      && negb ((8192 <=? c) && (c <=? 8303))
      && negb ((12288 <=? c) && (c <=? 12351))
      && negb ((65280 <=? c) && (c <=? 65295))
      && negb ((65306 <=? c) && (c <=? 65312))
      && negb ((65339 <=? c) && (c <=? 65344))
      && negb ((65371 <=? c) && (c <=? 65381))).

Definition is_word_opt (c : option N) : bool :=
  match c with Some x => is_word x | None => false end.

(** A fixed run of single characters; returns the last character consumed
    and the rest. *)
Fixpoint take_chars (ps : list (N -> bool)) (prev : option N) (s : pystr)
  : option (nat * option N * pystr) :=
  match ps with
  | [] => Some (O, prev, s)
  | p :: ps' =>
      match s with
      | c :: t =>
          if p c then
            match take_chars ps' (Some c) t with
            | Some (n, prev', s') => Some (S n, prev', s')
            | None => None
            end
          else None
      | [] => None
      end
  end.

(** [match_here pat prev s]: the length of the match of [pat] at the start
    of [s], where [prev] is the character before [s] (for [\b]). *)
Fixpoint match_here (pat : pattern) : option N -> pystr -> option nat :=
  match pat with
  | [] => fun _ _ => Some O
  | Chr p :: rest => fun _ s =>
      match s with
      | c :: t => if p c then S <$> match_here rest (Some c) t else None
      | [] => None
      end
  | Star p :: rest =>
      fix star (prev : option N) (s : pystr) {struct s} : option nat :=
        match s with
        | c :: t =>
            if p c then
              match star (Some c) t with
              | Some n => Some (S n)
              | None => match_here rest prev s
              end
            else match_here rest prev s
        | [] => match_here rest prev s
        end
  | Opt ps :: rest => fun prev s =>
      match take_chars ps prev s with
      | Some (n, prev', s') =>
          match match_here rest prev' s' with
          | Some k => Some (n + k)%nat
          | None => match_here rest prev s
          end
      | None => match_here rest prev s
      end
  | WordB :: rest => fun prev s =>
      if xorb (is_word_opt prev) (is_word_opt (head s))
      then match_here rest prev s else None
  end.

Fixpoint match_at (re : regex) (prev : option N) (s : pystr) : option nat :=
  match re with
  | [] => None
  | pat :: alts =>
      match match_here pat prev s with
      | Some n => Some n
      | None => match_at alts prev s
      end
  end.

(** [re.sub(re, repl, s)]; [skip] counts the characters of the current match
    that are still to be dropped. *)
Fixpoint sub_go (re : regex) (repl : pystr) (skip : nat) (prev : option N)
    (s : pystr) : pystr :=
  match s with
  | [] => []
  | c :: t =>
      match skip with
      | S k => sub_go re repl k (Some c) t
      | O =>
          match match_at re prev s with
          | Some (S n) => repl ++ sub_go re repl n (Some c) t
          | _ => c :: sub_go re repl O (Some c) t
          end
      end
  end.
Definition sub (re : regex) (repl s : pystr) : pystr := sub_go re repl O None s.

(** [re.findall(re, s)] for a pattern without capturing groups (or whose
    one group spans the whole pattern). *)
Fixpoint findall_go (re : regex) (skip : nat) (prev : option N) (s : pystr)
  : list pystr :=
  match s with
  | [] => []
  | c :: t =>
      match skip with
      | S k => findall_go re k (Some c) t
      | O =>
          match match_at re prev s with
          | Some (S n) => take (S n) s :: findall_go re n (Some c) t
          | _ => findall_go re O (Some c) t
          end
      end
  end.
Definition findall (re : regex) (s : pystr) : list pystr := findall_go re O None s.

(** [re.split(re, s)]; [cur] is the current piece, reversed. *)
Fixpoint split_go (re : regex) (skip : nat) (prev : option N) (cur : pystr)
    (s : pystr) : list pystr :=
  match s with
  | [] => [rev cur]
  | c :: t =>
      match skip with
      | S k => split_go re k (Some c) cur t
      | O =>
          match match_at re prev s with
          | Some (S n) => rev cur :: split_go re n (Some c) [] t
          | _ => split_go re O (Some c) (c :: cur) t
          end
      end
  end.
Definition split (re : regex) (s : pystr) : list pystr := split_go re O None [] s.

(** [re.search(re, s) is not None] *)
Fixpoint search_go (re : regex) (prev : option N) (s : pystr) : bool :=
  match s with
  | [] => false
  | c :: t =>
      match match_at re prev s with
      | Some (S _) => true
      | _ => search_go re (Some c) t
      end
  end.
Definition search (re : regex) (s : pystr) : bool := search_go re None s.

(** A literal word as a pattern, exact or case-insensitive. *)
Definition word (s : pystr) : pattern := map (fun c => Chr (ch c)) s.
Definition iword (s : pystr) : pattern := map (fun c => Chr (ci c)) s.

End Re.

(** ** Exceptions and JSON-like values *)

Inductive exn :=
  | ValueError (msg : pystr)
  | SearchError (msg : pystr)
  | LLMError (msg : pystr)
  | OtherError (msg : pystr).

Inductive result (A : Type) :=
  | Ok (a : A)
  | Raise (e : exn).
Arguments Ok {A} a.
Arguments Raise {A} e.

Definition bind {A B} (r : result A) (k : A -> result B) : result B :=
  match r with
  | Ok a => k a
  | Raise e => Raise e
  end.
Notation "'let*' x ':=' r 'in' k" := (bind r (fun x => k))
  (at level 10, x name, r at level 100, k at level 200).

(** A value as [json.loads] produces it (numbers restricted to integers). *)
#[local] Set Warnings "-register-all".
Inductive json :=
  | JNull
  | JBool (b : bool)
  | JInt (z : Z)
  | JStr (s : pystr)
  | JList (l : list json)
  | JDict (d : list (pystr * json)).

(** A [dict] with string keys, in insertion order. *)
Abbreviation dict := (list (pystr * json)).

Module Dict.

Fixpoint get (k : pystr) (d : dict) : option json :=
  match d with
  | [] => None
  | (k', v) :: t => if Py.eqb k k' then Some v else get k t
  end.

(** [k in d] *)
Definition mem (k : pystr) (d : dict) : bool :=
  match get k d with Some _ => true | None => false end.

(** [d[k] = v]: an existing key keeps its position. *)
Fixpoint set (k : pystr) (v : json) (d : dict) : dict :=
  match d with
  | [] => [(k, v)]
  | (k', v') :: t => if Py.eqb k k' then (k, v) :: t else (k', v') :: set k v t
  end.

(** [d.setdefault(k, v)] *)
Definition setdefault (k : pystr) (v : json) (d : dict) : dict :=
  if mem k d then d else set k v d.

(** [d.update(other)] *)
Definition update (d other : dict) : dict :=
  fold_left (fun acc kv => set kv.1 kv.2 acc) other d.

End Dict.

(** Python truthiness. *)
Definition truthy (v : json) : bool :=
  match v with
  | JNull => false
  | JBool b => b
  | JInt z => negb (z =? 0)%Z
  | JStr s => match s with [] => false | _ => true end
  | JList l => match l with [] => false | _ => true end
  | JDict d => match d with [] => false | _ => true end
  end.

(** [d.get(k) or default] *)
Definition get_or (k : pystr) (d : dict) (default : json) : json :=
  match Dict.get k d with
  | Some v => if truthy v then v else default
  | None => default
  end.

Definition opt_str (o : option pystr) : json :=
  match o with Some s => JStr s | None => JNull end.
Definition str_list (l : list pystr) : json := JList (map JStr l).

(** ** [search.py]: a search hit *)

Record SearchResult := {
  sr_title : pystr;
  sr_url : pystr;
  sr_snippet : pystr;
  sr_source : option pystr;
  sr_date : option pystr;
  sr_search_query : option pystr;
}.

Global Instance SearchResult_eq_dec : EqDecision SearchResult.
Proof. solve_decision. Defined.

(** [SearchResult.to_dict] (and [GroundTruthSource.to_dict]: the two classes
    have the same six fields and [from_search_result] copies them). *)
Definition source_to_dict (r : SearchResult) : dict :=
  [ (u8 "title", JStr (sr_title r));
    (u8 "url", JStr (sr_url r));
    (u8 "snippet", JStr (sr_snippet r));
    (u8 "source", opt_str (sr_source r));
    (u8 "date", opt_str (sr_date r));
    (u8 "search_query", opt_str (sr_search_query r)) ].

(** ** [data_structures.py] *)

Record PersonaProfile := {
  identifier : pystr;
  name : pystr;
  seniority : pystr;
  description : pystr;
  motivations : list pystr;
  pain_points : list pystr;
}.

Definition PersonaProfile_to_dict (p : PersonaProfile) : dict :=
  [ (u8 "id", JStr (identifier p));
    (u8 "name", JStr (name p));
    (u8 "seniority", JStr (seniority p));
    (u8 "description", JStr (description p));
    (u8 "motivations", str_list (motivations p));
    (u8 "pain_points", str_list (pain_points p)) ].

Record ContextBundle := {
  persona : PersonaProfile;
  user_statement : pystr;
  constraints : list pystr;
  available_assets : list pystr;
  success_metrics : list pystr;
}.

Definition ContextBundle_to_dict (c : ContextBundle) : dict :=
  [ (u8 "persona", JDict (PersonaProfile_to_dict (persona c)));
    (u8 "user_statement", JStr (user_statement c));
    (u8 "constraints", str_list (constraints c));
    (u8 "available_assets", str_list (available_assets c));
    (u8 "success_metrics", str_list (success_metrics c)) ].

(** A [GroundTruthSource] holds the six fields of the [SearchResult] it is
    made from, so it is represented by that record. *)
Record GroundTruthBundle := {
  primary : SearchResult;
  supporting : list SearchResult;
}.

Definition GroundTruthBundle_to_dict (b : GroundTruthBundle) : dict :=
  [ (u8 "primary", JDict (source_to_dict (primary b)));
    (u8 "supporting", JList (map (fun s => JDict (source_to_dict s)) (supporting b))) ].

Record EvaluationGuide := {
  eg_summary : pystr;
  eg_checkpoints : list pystr;
  eg_scoring_rubric : json;
}.

(** ** [spec.py] *)

(** What a caller may pass as [search_query]: [None], a string, a sequence
    (whose items are [None], strings, or something else that [str()] turns
    into the given text), or another object (with its [str()] text). *)
Inductive raw_item :=
  | ItemNone
  | ItemStr (s : pystr)
  | ItemOther (rendered : pystr).

Inductive raw_queries :=
  | RawNone
  | RawStr (s : pystr)
  | RawSeq (items : list raw_item)
  | RawOther (rendered : pystr).

(** The splitter [[;,，；]+]. *)
Definition is_query_separator (c : N) : bool :=
  (c =? 59) || (c =? 44) || (c =? 65292) || (c =? 65307).
Definition splitter : Re.regex :=
  [[Re.Chr is_query_separator; Re.Star is_query_separator]].

(** The inner [_push]: the queries it appends for one value. *)
Definition _push (value : pystr) : list pystr :=
  match value with
  | [] => []
  | _ => match Py.strip value with
         | [] => []
         | stripped => [stripped]
         end
  end.

Definition push_parts (s : pystr) : list pystr :=
  concat (map _push (map Py.strip (Re.split splitter s))).

(** The final loop: first occurrences, in order. *)
Fixpoint dedupe (seen : gset pystr) (queries : list pystr) : list pystr :=
  match queries with
  | [] => []
  | q :: rest =>
      if bool_decide (q ∈ seen) then dedupe seen rest
      else q :: dedupe ({[q]} ∪ seen) rest
  end.

Definition normalize_search_queries (raw : raw_queries) : list pystr :=
  match raw with
  | RawNone => []
  | RawStr s => dedupe ∅ (push_parts s)
  | RawSeq items =>
      dedupe ∅ (concat (map (fun item =>
        match item with
        | ItemNone => []
        | ItemStr s => push_parts s
        | ItemOther rendered => _push rendered
        end) items))
  | RawOther rendered => dedupe ∅ (_push rendered)
  end.

Record QuerySpec := {
  query_id : pystr;
  level : pystr;
  scenario : pystr;
  language : pystr;
  task_focus : list pystr;
  deliverable_requirements : list pystr;
  evaluation_focus : list pystr;
  notes : option pystr;
  orientation : option pystr;
  industry : option pystr;
  profession : option pystr;
  context_bundle : option ContextBundle;
  task_metadata : dict;
  context_documents : list dict;
  search_queries : list pystr;
}.

(** [_set_search_queries] *)
Definition _set_search_queries (qid : pystr) (value : raw_queries)
  : result (list pystr) :=
  match normalize_search_queries value with
  | [] => Raise (ValueError (u8 "search_query for '" ++ qid ++ u8 "' must not be empty."))
  | normalized => Ok normalized
  end.

(** The generated [__init__] followed by [__post_init__]: [proto] carries the
    ordinary fields, [search_query] is the init-only argument. *)
Definition QuerySpec_init (proto : QuerySpec) (search_query : raw_queries)
  : result QuerySpec :=
  let* qs := _set_search_queries (query_id proto) search_query in
  Ok {| query_id := query_id proto; level := level proto;
        scenario := scenario proto; language := language proto;
        task_focus := task_focus proto;
        deliverable_requirements := deliverable_requirements proto;
        evaluation_focus := evaluation_focus proto;
        notes := notes proto; orientation := orientation proto;
        industry := industry proto; profession := profession proto;
        context_bundle := context_bundle proto;
        task_metadata := task_metadata proto;
        context_documents := context_documents proto;
        search_queries := qs |}.

(** The property [search_query]: the first query, or the empty string. *)
Definition search_query (spec : QuerySpec) : pystr :=
  match search_queries spec with
  | q :: _ => q
  | [] => []
  end.

Definition normalized_level (spec : QuerySpec) : result pystr :=
  let upper := Py.upper (level spec) in
  if bool_decide (upper ∈ [u8 "L3"; u8 "L4"; u8 "L5"]) then Ok upper
  else Raise (ValueError (u8 "Unsupported level '" ++ level spec
                            ++ u8 "'. Expected one of L3/L4/L5.")).

Definition normalized_orientation (spec : QuerySpec) : result pystr :=
  let value := Py.lower (Py.strip (Py.or_else (orientation spec) (u8 "positive"))) in
  if bool_decide (value ∈ [u8 "positive"; u8 "inverse"]) then Ok value
  else Raise (ValueError (u8 "Unsupported orientation '"
                            ++ default (u8 "None") (orientation spec)
                            ++ u8 "'. Expected 'positive' or 'inverse'.")).

(** [to_metadata] *)
Definition to_metadata (spec : QuerySpec) : result dict :=
  let* lvl := normalized_level spec in
  let* ori := normalized_orientation spec in
  let payload :=
    [ (u8 "query_id", JStr (query_id spec));
      (u8 "level", JStr lvl);
      (u8 "language", JStr (language spec));
      (u8 "search_query", JStr (search_query spec));
      (u8 "search_queries", str_list (search_queries spec));
      (u8 "notes", opt_str (notes spec));
      (u8 "orientation", JStr ori);
      (u8 "industry", opt_str (industry spec));
      (u8 "profession", opt_str (profession spec));
      (u8 "task_metadata", JDict (task_metadata spec)) ] in
  let payload :=
    match context_bundle spec with
    | Some cb => Dict.set (u8 "context") (JDict (ContextBundle_to_dict cb)) payload
    | None => payload
    end in
  let payload :=
    match context_documents spec with
    | [] => payload
    | docs => Dict.set (u8 "context_documents") (JList (map JDict docs)) payload
    end in
  Ok payload.

(** ** [inverse_utils.py] *)

Definition INVERSE_NOTES_HINT : pystr := Eval vm_compute in
  u8 "本任务为负向任务：请参考《inverse_agency.md》，沿用其中总结的三类陷阱设计思路（违反领域根律、引用错误/不可复现数据、资源或能力根本不可行），重点考察智能体识别矛盾并提交证伪过程的能力。确保最终目标是得出“任务不可完成或前提有误”的结论，而非继续推进原需求。".

Definition _ensure_inverse_notes (notes : option pystr) (guidance_hint : pystr)
  : pystr :=
  let text := Py.strip (Py.or_else notes []) in
  if Py.contains text guidance_hint then text
  else match text with
       | [] => guidance_hint
       | _ => Py.strip (text ++ [10] ++ guidance_hint)
       end.

(** [dataclasses.replace(spec, query_id=.., orientation=.., notes=..)].
    [replace] builds a new object by calling [__init__] with every [init]
    field read from [spec] by [getattr], overridden by the changes.  The
    init-only field [search_query] has a default (the class attribute of
    that name, the property), so [replace] accepts its absence from the
    changes and reads [spec.search_query], which is the property: the first
    query.  [search_queries] has [init=False] and is not copied; the new
    object's [__post_init__] recomputes it from that one string. *)
Definition dataclass_replace (spec : QuerySpec)
    (new_id : pystr) (new_orientation : pystr) (new_notes : pystr)
  : result QuerySpec :=
  QuerySpec_init
    {| query_id := new_id; level := level spec; scenario := scenario spec;
       language := language spec; task_focus := task_focus spec;
       deliverable_requirements := deliverable_requirements spec;
       evaluation_focus := evaluation_focus spec;
       notes := Some new_notes; orientation := Some new_orientation;
       industry := industry spec; profession := profession spec;
       context_bundle := context_bundle spec;
       task_metadata := task_metadata spec;
       context_documents := context_documents spec;
       search_queries := [] |}
    (RawStr (search_query spec)).

(** The [while candidate in existing_ids] loop; [counter] is the value
    before the increment.  The candidates are pairwise different, so the
    loop ends within [size existing_ids + 1] rounds: that is the fuel. *)
Fixpoint fresh_candidate (fuel : nat) (base_id : pystr) (existing_ids : gset pystr)
    (counter : N) (candidate : pystr) : option pystr :=
  if bool_decide (candidate ∈ existing_ids) then
    match fuel with
    | O => None
    | S fuel' =>
        fresh_candidate fuel' base_id existing_ids (counter + 1)
          (base_id ++ u8 "-" ++ Py.of_N (counter + 1))
    end
  else Some candidate.

(** [build_inverse_spec]; returns the clone and the updated [existing_ids].
    [None] stands for a loop that ran out of fuel. *)
Definition build_inverse_spec (spec : QuerySpec)
    (existing_ids : option (gset pystr)) (guidance_hint : pystr)
  : option (result (QuerySpec * option (gset pystr))) :=
  match normalized_orientation spec with
  | Raise e => Some (Raise e)
  | Ok o =>
      if negb (Py.eqb o (u8 "positive")) then
        Some (Raise (ValueError (u8 "Only positive tasks can be inverted automatically.")))
      else
        let base_id := query_id spec ++ u8 "-inverse" in
        let chosen :=
          match existing_ids with
          | None => Some (base_id, None)
          | Some ids =>
              match fresh_candidate (S (size ids)) base_id ids 1 base_id with
              | Some c => Some (c, Some ({[c]} ∪ ids))
              | None => None
              end
          end in
        match chosen with
        | None => None
        | Some (candidate, ids') =>
            let inverse_notes := _ensure_inverse_notes (notes spec) guidance_hint in
            Some (bind (dataclass_replace spec candidate (u8 "inverse") inverse_notes)
                       (fun clone => Ok (clone, ids')))
        end
  end.

(** [expand_with_inverse_specs]: the loop body, threading [seen_ids]. *)
Fixpoint expand_loop (specs : list QuerySpec) (seen_ids : gset pystr)
    (guidance_hint : pystr) : option (result (list QuerySpec)) :=
  match specs with
  | [] => Some (Ok [])
  | spec :: rest =>
      match normalized_orientation spec with
      | Raise e => Some (Raise e)
      | Ok o =>
          if negb (Py.eqb o (u8 "positive")) then
            match expand_loop rest seen_ids guidance_hint with
            | Some r => Some (bind r (fun tl => Ok (spec :: tl)))
            | None => None
            end
          else
            match build_inverse_spec spec (Some seen_ids) guidance_hint with
            | None => None
            | Some (Raise e) => Some (Raise e)
            | Some (Ok (inverse_spec, ids')) =>
                match expand_loop rest (default seen_ids ids') guidance_hint with
                | Some r => Some (bind r (fun tl => Ok (spec :: inverse_spec :: tl)))
                | None => None
                end
            end
      end
  end.

Definition expand_with_inverse_specs (specs : list QuerySpec) (guidance_hint : pystr)
  : option (result (list QuerySpec)) :=
  expand_loop specs (list_to_set (map query_id specs)) guidance_hint.

(** ** [urllib.parse.urlparse]

    The three components the source reads.  As in CPython (3.12): leading
    C0 controls and spaces are dropped, tabs and line breaks are removed, a
    scheme is a run of scheme characters that starts with a letter and ends
    at the first colon, the authority follows [//] up to the first of [/?#],
    and the path stops at [#], [?] and, for the schemes that take
    parameters, at the first [;] of the last segment.  [urlparse] raises
    [ValueError] on an authority with unbalanced square brackets; such
    URLs are outside this model. *)

Module Url.

Record parsed := { scheme : pystr; netloc : pystr; path : pystr }.

(** The part before the first character satisfying [p], and the rest
    (starting with that character). *)
Fixpoint split_at (p : N -> bool) (s : pystr) : pystr * pystr :=
  match s with
  | [] => ([], [])
  | c :: t => if p c then ([], s) else let '(a, b) := split_at p t in (c :: a, b)
  end.

Definition scheme_char (c : N) : bool :=
  Py.is_lower_ascii c || Py.is_upper_ascii c || Py.is_digit_ascii c
  || (c =? 43) || (c =? 45) || (c =? 46).

Fixpoint lstrip_c0 (s : pystr) : pystr :=
  match s with
  | c :: t => if c <=? 32 then lstrip_c0 t else s
  | [] => []
  end.

Definition uses_params : list pystr :=
  [ []; u8 "ftp"; u8 "hdl"; u8 "prospero"; u8 "http"; u8 "imap"; u8 "https";
    u8 "shttp"; u8 "rtsp"; u8 "rtspu"; u8 "sip"; u8 "sips"; u8 "mms";
    u8 "sftp"; u8 "tel" ].

Definition split_params (path0 : pystr) : pystr :=
  let '(seg_rev, pre_rev) := split_at (Re.ch 47) (rev path0) in
  rev pre_rev ++ (split_at (Re.ch 59) (rev seg_rev)).1.

Definition urlparse (url : pystr) : parsed :=
  let url := List.filter (fun c => negb ((c =? 9) || (c =? 10) || (c =? 13)))
                         (lstrip_c0 url) in
  let '(sch, rest) :=
    match split_at (Re.ch 58) url with
    | (c :: pre, _ :: after) =>
        if (Py.is_lower_ascii c || Py.is_upper_ascii c)
           && forallb scheme_char (c :: pre)
        then (Py.lower (c :: pre), after) else ([], url)
    | _ => ([], url)
    end in
  let '(loc, rest) :=
    if Py.startswith rest (u8 "//")
    then split_at (fun c => (c =? 47) || (c =? 63) || (c =? 35)) (drop 2 rest)
    else ([], rest) in
  let rest := (split_at (Re.ch 35) rest).1 in
  let path0 := (split_at (Re.ch 63) rest).1 in
  {| scheme := sch; netloc := loc;
     path := if bool_decide (sch ∈ uses_params) then split_params path0 else path0 |}.

End Url.

(** ** [ground_truth.py] *)

Definition _SKIP_EXT : list pystr :=
  [ u8 ".ico"; u8 ".png"; u8 ".jpg"; u8 ".jpeg"; u8 ".gif"; u8 ".svg";
    u8 ".webp"; u8 ".css"; u8 ".js"; u8 ".ttf"; u8 ".woff"; u8 ".woff2" ].
Definition _SKIP_DOMAINS : list pystr :=
  [ u8 "duckduckgo.com"; u8 "r.jina.ai"; u8 "apps.apple.com"; u8 "itunes.apple.com" ].

Definition _is_viable_ground_truth (url : pystr) : bool :=
  match url with
  | [] => false
  | _ =>
      let parsed := Url.urlparse url in
      if bool_decide (Url.scheme parsed ∈ [u8 "file"]) then true
      else if negb (Py.startswith (Url.scheme parsed) (u8 "http")) then false
      else
        let host := Py.lower (Url.netloc parsed) in
        if existsb (fun banned => Py.eqb host banned
                                  || Py.endswith host (u8 "." ++ banned)) _SKIP_DOMAINS
        then false
        else negb (existsb (fun ext => Py.endswith (Py.lower (Url.path parsed)) ext)
                           _SKIP_EXT)
  end.

(** [_is_downloadable]: the viability check, then the HTTP probe.  The probe
    (a GET that must answer 200) is the network's: a parameter. *)
Definition _is_downloadable (probe : pystr -> bool) (url : pystr) : bool :=
  if negb (_is_viable_ground_truth url) then false else probe url.

(** The pattern [([a-zA-Z0-9.-]+\.[a-z]{2,})]. *)
Definition domain_char (c : N) : bool :=
  Py.is_lower_ascii c || Py.is_upper_ascii c || Py.is_digit_ascii c
  || (c =? 46) || (c =? 45).
Definition domain_re : Re.regex :=
  [[ Re.Chr domain_char; Re.Star domain_char; Re.Chr (Re.ch 46);
     Re.Chr Py.is_lower_ascii; Re.Chr Py.is_lower_ascii; Re.Star Py.is_lower_ascii ]].

Fixpoint extract_domains_loop (found : list pystr) (domains : list pystr)
  : list pystr :=
  match found with
  | [] => domains
  | m :: rest =>
      let domain := Py.lower m in
      if existsb (fun banned => Py.endswith domain banned) _SKIP_DOMAINS
      then extract_domains_loop rest domains
      else if bool_decide (domain ∈ domains) then extract_domains_loop rest domains
      else extract_domains_loop rest (domains ++ [domain])
  end.

Definition _extract_domains (snippet : pystr) : list pystr :=
  match snippet with
  | [] => []
  | _ => take 3 (extract_domains_loop (Re.findall domain_re snippet) [])
  end.

(** [_primary_score] *)
Definition _primary_score (url : pystr) : nat * nat :=
  match url with
  | [] => (99, 99)%nat
  | _ =>
      let u := Py.lower url in
      if Py.endswith u (u8 ".pdf") || Py.contains u (u8 "/pdf") then (0%nat, length u)
      else if Py.contains u (u8 "github.com") || Py.contains u (u8 "gitlab.com")
              || Py.contains u (u8 "bitbucket.org") then (1%nat, length u)
      else if Py.contains u (u8 "huggingface.co") then (2%nat, length u)
      else (5%nat, length u)
  end.

(** Comparison of the score tuples, as Python compares tuples. *)
Definition score_lt (a b : nat * nat) : bool :=
  (a.1 <? b.1)%nat || ((a.1 =? b.1)%nat && (a.2 <? b.2)%nat).

(** [sorted(l, key=key)]: the stable sort.  There is one stable sorted
    arrangement of a list, so insertion from the right computes what
    Python's sort returns. *)
Fixpoint insert_by {A} (key : A -> nat * nat) (x : A) (l : list A) : list A :=
  match l with
  | [] => [x]
  | y :: t => if score_lt (key y) (key x) then y :: insert_by key x t else x :: l
  end.
Definition sorted_by {A} (key : A -> nat * nat) (l : list A) : list A :=
  foldr (insert_by key) [] l.

(** The search backend: [serper_search(query, endpoint=, market=, language=,
    num=)] either returns hits or raises [SearchError].  It is the
    network's, so it is a parameter, with its own state. *)
Inductive response :=
  | Hits (l : list SearchResult)
  | Failed (msg : pystr).

Definition backend (St : Type) : Type :=
  pystr -> pystr -> pystr -> pystr -> Z -> St -> response * St.

(** An object of a list: the value with its position.  The lists handled
    here hold pairwise different objects (each hit is built by its own
    constructor call), so [a is b] is equality of positions. *)
Definition enumerate {A} (l : list A) : list (nat * A) := zip (seq 0 (length l)) l.

(** The final loop of [select_ground_truth_bundle]; the test on the length
    comes after the append. *)
Fixpoint supporting_loop (primary_pos : nat) (max_supporting : nat)
    (count : nat) (results : list (nat * SearchResult)) : list SearchResult :=
  match results with
  | [] => []
  | (i, res) :: rest =>
      if bool_decide (i = primary_pos) then
        supporting_loop primary_pos max_supporting count rest
      else if negb (_is_viable_ground_truth (sr_url res)) then
        supporting_loop primary_pos max_supporting count rest
      else
        res :: (if (max_supporting <=? S count)%nat then []
                else supporting_loop primary_pos max_supporting (S count) rest)
  end.

Section Selector.
Context {St : Type} (serper_search : backend St) (probe : pystr -> bool).

(** The inner loop of the domain refinement, over the domains of one hit. *)
Fixpoint refine_domains (query : pystr) (endpoint market language : pystr)
    (max_supporting : nat) (domains : list pystr) (st : St)
  : option GroundTruthBundle * St :=
  match domains with
  | [] => (None, st)
  | domain :: rest =>
      match serper_search (u8 "site:" ++ domain ++ u8 " " ++ query)
                          endpoint market language 5%Z st with
      | (Failed _, st') =>
          refine_domains query endpoint market language max_supporting rest st'
      | (Hits refined, st') =>
          match List.filter (fun cand => _is_viable_ground_truth (sr_url cand)) refined with
          | [] => refine_domains query endpoint market language max_supporting rest st'
          | first :: supporting_candidates =>
              (Some {| primary := first;
                       supporting := take max_supporting supporting_candidates |}, st')
          end
      end
  end.

(** The outer loop, over the hits. *)
Fixpoint refine_results (query : pystr) (endpoint market language : pystr)
    (max_supporting : nat) (results : list SearchResult) (st : St)
  : option GroundTruthBundle * St :=
  match results with
  | [] => (None, st)
  | res :: rest =>
      match refine_domains query endpoint market language max_supporting
              (_extract_domains (sr_snippet res)) st with
      | (Some b, st') => (Some b, st')
      | (None, st') =>
          refine_results query endpoint market language max_supporting rest st'
      end
  end.

(** The candidates in the order of preference: [ordered] of the source. *)
Definition ordered_candidates (results : list SearchResult)
  : list (nat * SearchResult) :=
  let viable := List.filter (fun r => _is_viable_ground_truth (sr_url r.2))
                            (enumerate results) in
  let viable_sorted := sorted_by (fun r => _primary_score (sr_url r.2)) viable in
  let downloadable :=
    List.filter (fun r => _is_downloadable probe (sr_url r.2)) viable_sorted in
  match downloadable with
  | [] => viable_sorted
  | _ => downloadable
  end.

Definition select_ground_truth_bundle (spec : QuerySpec)
    (results : list SearchResult) (serper_endpoint market language : pystr)
    (max_supporting : nat) (st : St) : result GroundTruthBundle * St :=
  match results with
  | [] => (Raise (SearchError (u8 "No search results available for " ++ query_id spec)), st)
  | first_result :: _ =>
      match ordered_candidates results with
      | (i, prim) :: _ =>
          (Ok {| primary := prim;
                 supporting := supporting_loop i max_supporting 0
                                 (enumerate results) |}, st)
      | [] =>
          match refine_results (search_query spec) serper_endpoint market language
                  max_supporting results st with
          | (Some b, st') => (Ok b, st')
          | (None, st') =>
              (Ok {| primary := first_result;
                     supporting := supporting_loop 0 max_supporting 0
                                     (enumerate results) |}, st')
          end
      end
  end.

End Selector.

(** ** [repr] of strings

    [repr(s)] as CPython prints it: single quotes unless the text has a
    single quote and no double quote; backslash, the quote, tab, line feed
    and carriage return escaped; other non-printable characters as hex
    escapes.  Non-printable are the ASCII and Latin-1 controls, the soft
    hyphen and the non-ASCII white space; every other code point is taken as
    printable (Python consults the Unicode database). *)

Module Repr.

Definition hex_digit (d : N) : N := if d <? 10 then 48 + d else 87 + d.

Fixpoint hex_digits (width : nat) (n : N) : pystr :=
  match width with
  | O => []
  | S w => hex_digits w (n / 16) ++ [hex_digit (n mod 16)]
  end.

Definition printable (c : N) : bool :=
  negb ((c <? 32) || ((127 <=? c) && (c <=? 160)) || (c =? 173)
        || ((128 <=? c) && Py.isspace c)).

Definition escape (quote c : N) : pystr :=
  if (c =? 92) || (c =? quote) then [92; c]
  else if c =? 9 then [92; 116]
  else if c =? 10 then [92; 110]
  else if c =? 13 then [92; 114]
  else if printable c then [c]
  else if c <? 256 then [92; 120] ++ hex_digits 2 c
  else if c <? 65536 then [92; 117] ++ hex_digits 4 c
  else [92; 85] ++ hex_digits 8 c.

Definition str (s : pystr) : pystr :=
  let quote :=
    if existsb (Re.ch 39) s && negb (existsb (Re.ch 34) s) then 34 else 39 in
  [quote] ++ concat (map (escape quote) s) ++ [quote].

(** [repr] of a list of strings. *)
Definition str_list (l : list pystr) : pystr :=
  u8 "[" ++ Py.join (u8 ", ") (map str l) ++ u8 "]".

End Repr.

(** ** [agent.py]: searching *)

Definition filetype_re : Re.regex :=
  [[Re.WordB] ++ Re.iword (u8 "filetype:") ++ [Re.Chr Re.notspace; Re.Star Re.notspace]].
Definition or_site_re : Re.regex :=
  [[Re.WordB] ++ Re.iword (u8 "OR") ++ [Re.WordB; Re.Chr Py.isspace; Re.Star Py.isspace]
   ++ Re.iword (u8 "site:") ++ [Re.Chr Re.notspace; Re.Star Re.notspace]].
Definition site_re : Re.regex :=
  [[Re.WordB] ++ Re.iword (u8 "site:") ++ [Re.Chr Re.notspace; Re.Star Re.notspace]].
(** [\\d] is taken as the ASCII digits. *)
Definition year_range_re : Re.regex :=
  [[Re.WordB; Re.Chr Py.is_digit_ascii; Re.Chr Py.is_digit_ascii;
    Re.Chr Py.is_digit_ascii; Re.Chr Py.is_digit_ascii;
    Re.Chr (Re.ch 46); Re.Chr (Re.ch 46);
    Re.Chr Py.is_digit_ascii; Re.Chr Py.is_digit_ascii;
    Re.Chr Py.is_digit_ascii; Re.Chr Py.is_digit_ascii; Re.WordB]].
Definition spaces_re : Re.regex :=
  [[Re.Chr Py.isspace; Re.Chr Py.isspace; Re.Star Py.isspace]].

Definition _relax_search_query (query : pystr) : pystr :=
  let original := query in
  let relaxed := Re.sub filetype_re [] original in
  let relaxed := Re.sub or_site_re [] relaxed in
  let relaxed := Re.sub site_re [] relaxed in
  let relaxed := Re.sub year_range_re [] relaxed in
  let relaxed := Py.strip (Re.sub spaces_re (u8 " ") relaxed) in
  match relaxed with
  | [] => original
  | _ => relaxed
  end.

Definition _build_query_variants (query : pystr) : list pystr :=
  let base := query in
  let relaxed := _relax_search_query base in
  match relaxed with
  | [] => [base]
  | _ => if bool_decide (relaxed ∈ [base]) then [base] else [base; relaxed]
  end.

Record Agent := { serper_endpoint : pystr; market : pystr }.

(** The key that de-duplicates hits: the URL, else title and snippet. *)
Definition result_key (r : SearchResult) : pystr :=
  match sr_url r with
  | [] => sr_title r ++ u8 "|" ++ sr_snippet r
  | url => url
  end.

(** The loop over the hits of one answer. *)
Fixpoint aggregate (num_results : Z) (results : list SearchResult)
    (aggregated_results : list SearchResult) (seen_keys : gset pystr)
  : list SearchResult * gset pystr :=
  match results with
  | [] => (aggregated_results, seen_keys)
  | r :: rest =>
      let key := result_key r in
      if bool_decide (key ∈ seen_keys) then
        aggregate num_results rest aggregated_results seen_keys
      else
        let seen_keys := {[key]} ∪ seen_keys in
        let aggregated_results := aggregated_results ++ [r] in
        if (num_results <=? Z.of_nat (length aggregated_results))%Z
        then (aggregated_results, seen_keys)
        else aggregate num_results rest aggregated_results seen_keys
  end.

(** [aggregated_results[:num_results]] *)
Definition slice_to (num_results : Z) (l : list SearchResult) : list SearchResult :=
  if (0 <=? num_results)%Z then take (Z.to_nat num_results) l
  else take (length l - Z.to_nat (- num_results)) l.

Definition search_language (spec : QuerySpec) : pystr :=
  if Py.startswith (Py.lower (language spec)) (u8 "zh") then u8 "zh" else u8 "en".

(** The hit returned when [SKIP_WEB_SEARCH=1]. *)
Definition placeholder_result (spec : QuerySpec) : SearchResult :=
  let fragments :=
    (match scenario spec with [] => [] | sc => [sc] end)
    ++ (match task_focus spec with
        | [] => []
        | tf => [u8 "任务聚焦：" ++ Py.join (u8 "；") (take 3 tf)]
        end)
    ++ (match deliverable_requirements spec with
        | [] => []
        | dr => [u8 "交付要求：" ++ Py.join (u8 "；") (take 2 dr)]
        end) in
  let snippet :=
    match Py.join (u8 " ") fragments with
    | [] => u8 "Placeholder ground truth for " ++ query_id spec
    | joined => joined
    end in
  {| sr_title := u8 "Internal Knowledge Pack · " ++ query_id spec;
     sr_url := u8 "https://example.com/internal/" ++ query_id spec;
     sr_snippet := snippet;
     sr_source := Some (u8 "internal-placeholder");
     sr_date := None;
     sr_search_query := Some (search_query spec) |}.

Section RunSearch.
Context {St : Type} (serper_search : backend St).

(** The three attempts for one base query: the answer of the first attempt
    that does not raise, the last error otherwise. *)
Fixpoint attempts_loop (attempts : list nat) (query_variants : list pystr)
    (agent : Agent) (language : pystr) (remaining : Z)
    (last_error : option pystr) (st : St)
  : option (list SearchResult) * option pystr * St :=
  match attempts with
  | [] => (None, last_error, st)
  | attempt :: later =>
      let variant_index := Nat.min attempt (length query_variants - 1) in
      let query_variant := nth variant_index query_variants [] in
      match serper_search query_variant (serper_endpoint agent) (market agent)
                          language remaining st with
      | (Hits results, st') => (Some results, last_error, st')
      | (Failed msg, st') =>
          attempts_loop later query_variants agent language remaining (Some msg) st'
      end
  end.

(** The loop over the base queries. *)
Fixpoint search_loop (agent : Agent) (language : pystr) (num_results : Z)
    (queries : list pystr) (aggregated_results : list SearchResult)
    (seen_keys : gset pystr) (errors : list pystr) (st : St)
  : list SearchResult * list pystr * St :=
  match queries with
  | [] => (aggregated_results, errors, st)
  | base_query :: later =>
      let query_variants := _build_query_variants base_query in
      let remaining :=
        Z.max (num_results - Z.of_nat (length aggregated_results)) 1 in
      match attempts_loop [0; 1; 2]%nat query_variants agent language remaining None st with
      | (None, last_error, st') =>
          let errors :=
            match last_error with
            | Some msg => errors ++ [msg]
            | None => errors
            end in
          search_loop agent language num_results later aggregated_results seen_keys
            errors st'
      | (Some results, _, st') =>
          let '(aggregated_results, seen_keys) :=
            aggregate num_results results aggregated_results seen_keys in
          if (num_results <=? Z.of_nat (length aggregated_results))%Z
          then (aggregated_results, errors, st')
          else search_loop agent language num_results later aggregated_results
                 seen_keys errors st'
      end
  end.

(** [run_search]; [skip_web_search] is the test [SKIP_WEB_SEARCH == "1"]. *)
Definition run_search (agent : Agent) (skip_web_search : bool) (spec : QuerySpec)
    (num_results : Z) (st : St) : result (list SearchResult) * St :=
  let language := search_language spec in
  if skip_web_search then (Ok [placeholder_result spec], st)
  else
    let '(aggregated_results, errors, st') :=
      search_loop agent language num_results (search_queries spec) [] ∅ [] st in
    match aggregated_results with
    | [] =>
        let error_msg :=
          match Py.join (u8 "; ") errors with
          | [] => u8 "No results"
          | joined => joined
          end in
        (Raise (SearchError
                  (u8 "Search failed for '" ++ query_id spec ++ u8 "' (level="
                   ++ level spec ++ u8 ") using queries "
                   ++ Repr.str_list (search_queries spec) ++ u8 ": " ++ error_msg)),
         st')
    | _ => (Ok (slice_to num_results aggregated_results), st')
    end.

End RunSearch.

(** A backend that also records its calls, for statements about the
    attempts that [run_search] makes. *)
Definition recording {St : Type} (serper_search : backend St)
  : backend (St * list (pystr * response)) :=
  fun query endpoint market language num '(st, calls) =>
    let '(answer, st') := serper_search query endpoint market language num st in
    (answer, (st', calls ++ [(query, answer)])).

Definition hits_of (answer : response) : list SearchResult :=
  match answer with
  | Hits l => l
  | Failed _ => []
  end.

(** All hits of the recorded calls, in the order of discovery. *)
Definition discovered (calls : list (pystr * response)) : list SearchResult :=
  concat (map (fun c => hits_of c.2) calls).

(** The keys of a list of hits, as a set. *)
Definition keys_of (l : list SearchResult) : gset pystr :=
  list_to_set (map result_key l).

(** The first occurrence of every key that is not in [seen]. *)
Fixpoint dedupe_by_key (seen : gset pystr) (l : list SearchResult)
  : list SearchResult :=
  match l with
  | [] => []
  | r :: rest =>
      if bool_decide (result_key r ∈ seen) then dedupe_by_key seen rest
      else r :: dedupe_by_key ({[result_key r]} ∪ seen) rest
  end.

(** ** [agent.py]: [generate_batch]

    The collaborators of one unit of work are parameters acting on a world
    [W]: [run_search] (the evidence search with its default [num_results]),
    [build_query] (selection, generation and post-processing) and
    [save_query_package].  The shared search cache is a [gmap]. *)

Definition cache_key_t : Type := list pystr * pystr * pystr * pystr.

Definition cache_key (agent : Agent) (spec : QuerySpec) : cache_key_t :=
  (search_queries spec, Py.lower (language spec), market agent, serper_endpoint agent).

(** The resolution of the worker bound; [int_of] is Python's [int()]. *)
Definition resolve_workers (int_of : pystr -> option Z) (max_workers : option Z)
    (env_workers : option pystr) : Z :=
  let resolved :=
    match max_workers with
    | Some n => Some n
    | None =>
        match env_workers with
        | Some ((_ :: _) as v) => int_of v
        | _ => None
        end
    end in
  Z.max 1 (default 1%Z resolved).

(** A unit of work between two of its steps.  The steps are the two
    sections under [cache_lock] (the look-up and the write), the search
    between them, and the generation with the packaging. *)
Inductive worker :=
  | Queued (spec : QuerySpec)
  | Missed (spec : QuerySpec)
  | Searched (spec : QuerySpec) (search_results : list SearchResult)
  | Ready (spec : QuerySpec) (search_results : list SearchResult)
  | Finished (outcome : result (option dict)).

Definition running (w : worker) : bool :=
  match w with
  | Missed _ | Searched _ _ | Ready _ _ => true
  | Queued _ | Finished _ => false
  end.

Definition is_queued (w : worker) : bool :=
  match w with Queued _ => true | _ => false end.

Definition worker_key (agent : Agent) (w : worker) : option cache_key_t :=
  match w with
  | Queued spec | Missed spec | Searched spec _ | Ready spec _ => Some (cache_key agent spec)
  | Finished _ => None
  end.

Section Batch.
Context {W : Type}.
Context (run_search : QuerySpec -> W -> result (list SearchResult) * W).
Context (build_query : QuerySpec -> list SearchResult -> W -> result dict * W).
Context (save_query_package : dict -> W -> result pystr * W).
Context (agent : Agent) (package_dir : bool).

Definition shared : Type := gmap cache_key_t (list SearchResult) * W.

(** The loop [for attempt in range(3)] around [build_query]: only
    [SearchError] and [LLMError] are caught. *)
Fixpoint build_attempts (attempts : nat) (spec : QuerySpec)
    (search_results : list SearchResult) (w : W) : result (option dict) * W :=
  match attempts with
  | O => (Ok None, w)
  | S later =>
      match build_query spec search_results w with
      | (Ok payload, w') => (Ok (Some payload), w')
      | (Raise (SearchError _), w') | (Raise (LLMError _), w') =>
          build_attempts later spec search_results w'
      | (Raise e, w') => (Raise e, w')
      end
  end.

(** From the search results to the value [_process_spec] returns. *)
Definition generate_and_package (spec : QuerySpec)
    (search_results : list SearchResult) (w : W) : result (option dict) * W :=
  match build_attempts 3 spec search_results w with
  | (Ok (Some payload), w') =>
      if package_dir then
        match save_query_package payload w' with
        | (Ok pkg_path, w'') =>
            (Ok (Some (Dict.set (u8 "_package_dir") (JStr pkg_path) payload)), w'')
        | (Raise e, w'') => (Raise e, w'')
        end
      else (Ok (Some payload), w')
  | other => other
  end.

(** [_process_spec], run without interruption. *)
Definition _process_spec (spec : QuerySpec) (s : shared) : result (option dict) * shared :=
  let '(search_cache, w) := s in
  let key := cache_key agent spec in
  match search_cache !! key with
  | Some search_results =>
      let '(out, w') := generate_and_package spec search_results w in
      (out, (search_cache, w'))
  | None =>
      match run_search spec w with
      | (Raise (SearchError _), w') => (Ok None, (search_cache, w'))
      | (Raise e, w') => (Raise e, (search_cache, w'))
      | (Ok search_results, w') =>
          let search_cache := <[key := search_results]> search_cache in
          let '(out, w'') := generate_and_package spec search_results w' in
          (out, (search_cache, w''))
      end
  end.

(** The same body, one step at a time, for the runs in which the units of
    work of several threads interleave. *)
Definition worker_step (wk : worker) (s : shared) : worker * shared :=
  let '(search_cache, w) := s in
  match wk with
  | Queued spec =>
      match search_cache !! cache_key agent spec with
      | Some search_results => (Ready spec search_results, s)
      | None => (Missed spec, s)
      end
  | Missed spec =>
      match run_search spec w with
      | (Raise (SearchError _), w') => (Finished (Ok None), (search_cache, w'))
      | (Raise e, w') => (Finished (Raise e), (search_cache, w'))
      | (Ok search_results, w') => (Searched spec search_results, (search_cache, w'))
      end
  | Searched spec search_results =>
      (Ready spec search_results,
       (<[cache_key agent spec := search_results]> search_cache, w))
  | Ready spec search_results =>
      let '(out, w') := generate_and_package spec search_results w in
      (Finished out, (search_cache, w'))
  | Finished out => (Finished out, s)
  end.

(** The sequential branch: [for spec in specs: ...], with no handler
    around the call. *)
Fixpoint sequential_loop (specs : list QuerySpec) (outputs : list dict) (s : shared)
  : result (list dict) * shared :=
  match specs with
  | [] => (Ok outputs, s)
  | spec :: later =>
      match _process_spec spec s with
      | (Raise e, s') => (Raise e, s')
      | (Ok payload, s') =>
          let outputs :=
            match payload with
            | Some p => if truthy (JDict p) then outputs ++ [p] else outputs
            | None => outputs
            end in
          sequential_loop later outputs s'
      end
  end.

(** The thread pool: the units of work in submission order, the cache and
    the world.  A queued unit starts when the units before it have started
    and fewer than [max_workers] units are running; a running unit may take
    its next step at any time. *)
Record pool := { workers : list worker; pool_shared : shared }.

Definition may_step (max_workers : nat) (ws : list worker) (i : nat) (wk : worker) : Prop :=
  match wk with
  | Queued _ =>
      Forall (fun w => is_queued w = false) (take i ws)
      ∧ (length (List.filter running ws) < max_workers)%nat
  | Finished _ => False
  | _ => True
  end.

Inductive pool_step (max_workers : nat) : pool -> pool -> Prop :=
  | pool_step_at (ws : list worker) (s : shared) (i : nat) (wk wk' : worker)
      (s' : shared) :
      ws !! i = Some wk ->
      may_step max_workers ws i wk ->
      worker_step wk s = (wk', s') ->
      pool_step max_workers {| workers := ws; pool_shared := s |}
                            {| workers := <[i := wk']> ws; pool_shared := s' |}.

Definition pool_init (specs : list QuerySpec) (w : W) : pool :=
  {| workers := map Queued specs; pool_shared := (∅, w) |}.

Definition outcome_of (wk : worker) : option (result (option dict)) :=
  match wk with Finished out => Some out | _ => None end.

(** The fan-in loop over [as_completed]: an exception of a future is
    caught and the item is left out. *)
Fixpoint fan_in (outcomes : list (result (option dict))) (completed : list nat)
    (results : list (option dict)) : list (option dict) :=
  match completed with
  | [] => results
  | idx :: later =>
      match outcomes !! idx with
      | Some (Ok (Some payload)) =>
          if truthy (JDict payload)
          then fan_in outcomes later (<[idx := Some payload]> results)
          else fan_in outcomes later results
      | _ => fan_in outcomes later results
      end
  end.

Definition collect (results : list (option dict)) : list dict := omap id results.

(** [generate_batch]: what a call can return.  In the parallel branch the
    result depends on the interleaving and on the order of completion. *)
Inductive generate_batch_returns (specs : list QuerySpec) (resolved_workers : Z)
    (w : W) : result (list dict) -> Prop :=
  | returns_sequential (out : result (list dict)) (s' : shared) :
      (resolved_workers = 1%Z ∨ (length specs <= 1)%nat) ->
      sequential_loop specs [] (∅, w) = (out, s') ->
      generate_batch_returns specs resolved_workers w out
  | returns_parallel (final : pool) (outcomes : list (result (option dict)))
      (completed : list nat) :
      resolved_workers ≠ 1%Z -> (1 < length specs)%nat ->
      rtc (pool_step (Z.to_nat resolved_workers)) (pool_init specs w) final ->
      mapM outcome_of (workers final) = Some outcomes ->
      completed ≡ₚ seq 0 (length specs) ->
      generate_batch_returns specs resolved_workers w
        (Ok (collect (fan_in outcomes completed (replicate (length specs) None)))).

(** A unit of work run for [fuel] steps. *)
Fixpoint run_worker (fuel : nat) (wk : worker) (s : shared) : worker * shared :=
  match fuel with
  | O => (wk, s)
  | S fuel' => let '(wk', s') := worker_step wk s in run_worker fuel' wk' s'
  end.

End Batch.

(** ** [agent.py]: post-processing of a generated payload *)

(** [repr(v)] and [str(v)] of a JSON-like value. *)
Fixpoint py_repr (v : json) : pystr :=
  match v with
  | JNull => u8 "None"
  | JBool true => u8 "True"
  | JBool false => u8 "False"
  | JInt z => Py.of_Z z
  | JStr s => Repr.str s
  | JList l => u8 "[" ++ Py.join (u8 ", ") (map py_repr l) ++ u8 "]"
  | JDict d =>
      u8 "{" ++ Py.join (u8 ", ")
                  (map (fun kv => Repr.str kv.1 ++ u8 ": " ++ py_repr kv.2) d)
      ++ u8 "}"
  end.

Definition py_str (v : json) : pystr :=
  match v with
  | JStr s => s
  | _ => py_repr v
  end.

(** [list(v)] *)
Definition py_list (v : json) : result (list json) :=
  match v with
  | JList l => Ok l
  | JStr s => Ok (map (fun c => JStr [c]) s)
  | JDict d => Ok (map (fun kv => JStr kv.1) d)
  | _ => Raise (OtherError (u8 "TypeError: object is not iterable"))
  end.

(** [(d.get(k) or {})], used as a dict afterwards. *)
Definition dict_or_empty (k : pystr) (d : dict) : result dict :=
  match get_or k d (JDict []) with
  | JDict b => Ok b
  | _ => Raise (OtherError (u8 "AttributeError: object has no attribute 'get'"))
  end.

(** [(d.get(k) or default).strip()] *)
Definition stripped_or (k : pystr) (d : dict) (default : pystr) : result pystr :=
  match get_or k d (JStr default) with
  | JStr s => Ok (Py.strip s)
  | _ => Raise (OtherError (u8 "AttributeError: object has no attribute 'strip'"))
  end.

(** The three shapes of in-place rewriting that the transforms use.
    [rewrite_str]: [v = d.get(k); if isinstance(v, str): d[k] = f(v)].
    [rewrite_strs]: [a = d.get(k); if isinstance(a, list): d[k] = [f(str(x))
    for x in a]].  [in_block]: [b = d.get(k) or {}; if isinstance(b, dict):
    <g on b>; d[k] = b]. *)
Definition rewrite_str (f : pystr -> pystr) (k : pystr) (d : dict) : dict :=
  match Dict.get k d with
  | Some (JStr s) => Dict.set k (JStr (f s)) d
  | _ => d
  end.

Definition rewrite_strs (f : pystr -> pystr) (k : pystr) (d : dict) : dict :=
  match Dict.get k d with
  | Some (JList l) => Dict.set k (JList (map (fun x => JStr (f (py_str x))) l)) d
  | _ => d
  end.

Definition in_block (k : pystr) (g : dict -> dict) (d : dict) : dict :=
  match get_or k d (JDict []) with
  | JDict b => Dict.set k (JDict (g b)) d
  | _ => d
  end.

Definition rewrite_str_keys (f : pystr -> pystr) (keys : list pystr) (d : dict) : dict :=
  fold_left (fun acc k => rewrite_str f k acc) keys d.
Definition rewrite_strs_keys (f : pystr -> pystr) (keys : list pystr) (d : dict) : dict :=
  fold_left (fun acc k => rewrite_strs f k acc) keys d.

(** *** [_scrub_public_gt_terms] *)

Definition gt_term_re : Re.regex :=
  [Re.iword (u8 "Ground") ++ [Re.Star Py.isspace] ++ Re.iword (u8 "Truth")].
Definition public_term : pystr := Eval vm_compute in u8 "参考资料".

Definition _replace (s : pystr) : pystr := Re.sub gt_term_re public_term s.

Definition _scrub_public_gt_terms (payload : dict) : dict :=
  let payload :=
    rewrite_str_keys _replace
      [u8 "title"; u8 "role_and_background"; u8 "tool_usage_expectation";
       u8 "estimated_human_time"; u8 "notes"] payload in
  let payload :=
    rewrite_strs_keys _replace [u8 "task_objectives"; u8 "grading_rubric"] payload in
  let payload :=
    in_block (u8 "deliverables") (fun deliver =>
      let deliver := rewrite_strs _replace (u8 "expected_outputs") deliver in
      rewrite_str_keys _replace [u8 "format_requirements"; u8 "quality_bar"] deliver)
      payload in
  let payload :=
    in_block (u8 "inputs_and_resources") (fun inres =>
      let inres := rewrite_strs _replace (u8 "provided_materials") inres in
      rewrite_str_keys _replace
        [u8 "allowed_external_research"; u8 "ground_truth_usage"; u8 "reference_usage"]
        inres) payload in
  let payload :=
    in_block (u8 "standard_answer") (fun sa =>
      let sa := rewrite_str _replace (u8 "summary") sa in
      rewrite_strs _replace (u8 "key_points") sa) payload in
  let payload :=
    in_block (u8 "evaluation_guide") (fun eg =>
      let eg := rewrite_str _replace (u8 "summary") eg in
      rewrite_strs_keys _replace [u8 "checkpoints"; u8 "scoring_rubric"] eg) payload in
  let payload :=
    in_block (u8 "context") (fun ctx =>
      let ctx :=
        in_block (u8 "persona") (fun person =>
          rewrite_str_keys _replace [u8 "name"; u8 "description"] person) ctx in
      let ctx := rewrite_str _replace (u8 "user_statement") ctx in
      rewrite_strs_keys _replace
        [u8 "constraints"; u8 "available_assets"; u8 "success_metrics"] ctx) payload in
  payload.

(** *** [_sanitize_internal_scope] *)

Definition _context_supports_internal_assets (context : ContextBundle) : bool :=
  let keywords := [u8 "内部"; u8 "internal"; u8 "机密"; u8 "confidential"] in
  let fields :=
    constraints context ++ available_assets context ++ success_metrics context
    ++ [user_statement context] ++ [description (persona context)] in
  existsb (fun text =>
    match text with
    | [] => false
    | _ => existsb (fun keyword => Py.contains text keyword) keywords
    end) fields.

Definition internal_patterns : list (Re.regex * pystr) :=
  let company := [Re.Opt (map Re.ch (u8 "公司"))] in
  [ ([company ++ Re.word (u8 "内部资料")], u8 "提供的公开资料");
    ([company ++ Re.word (u8 "内部数据")], u8 "提供的公开数据");
    ([company ++ Re.word (u8 "内部文档")], u8 "提供的参考资料");
    ([company ++ Re.word (u8 "内部报告")], u8 "公开报告");
    ([company ++ Re.word (u8 "内部系统")], u8 "授权的公开系统");
    ([Re.word (u8 "内部流程文档")], u8 "提供的流程资料");
    ([Re.word (u8 "内部流程")], u8 "公开可验证流程") ].

Definition apply_rules (rules : list (Re.regex * pystr)) (s : pystr) : pystr :=
  fold_left (fun acc rule => Re.sub rule.1 rule.2 acc) rules s.

Definition _replace_text (value : json) : json :=
  match value with
  | JStr s => JStr (apply_rules internal_patterns s)
  | _ => value
  end.

Definition _sanitize_list (items : json) : json :=
  match items with
  | JList l => JList (map _replace_text l)
  | _ => items
  end.

(** [if k in d: d[k] = f(d[k])] *)
Definition rewrite_present (f : json -> json) (k : pystr) (d : dict) : dict :=
  match Dict.get k d with
  | Some v => Dict.set k (f v) d
  | None => d
  end.
Definition rewrite_present_keys (f : json -> json) (keys : list pystr) (d : dict) : dict :=
  fold_left (fun acc k => rewrite_present f k acc) keys d.

Definition scope_clause : pystr := Eval vm_compute in
  u8 "不得假设额外的公司内部资料，除非已在“提供的资料”中明确列出。".

Definition _sanitize_internal_scope (payload : dict) (context : ContextBundle) : dict :=
  if _context_supports_internal_assets context then payload
  else
    let payload :=
      rewrite_present_keys _replace_text
        [u8 "role_and_background"; u8 "notes"; u8 "tool_usage_expectation";
         u8 "estimated_human_time"] payload in
    let payload :=
      rewrite_present_keys _sanitize_list [u8 "task_objectives"; u8 "grading_rubric"]
        payload in
    let payload :=
      in_block (u8 "deliverables") (fun deliver =>
        let deliver := rewrite_present _sanitize_list (u8 "expected_outputs") deliver in
        rewrite_present_keys _replace_text [u8 "format_requirements"; u8 "quality_bar"]
          deliver) payload in
    let payload :=
      in_block (u8 "inputs_and_resources") (fun inres =>
        let inres := rewrite_present _sanitize_list (u8 "provided_materials") inres in
        let inres :=
          rewrite_present_keys _replace_text
            [u8 "allowed_external_research"; u8 "reference_usage"; u8 "ground_truth_usage"]
            inres in
        match Dict.get (u8 "allowed_external_research") inres with
        | Some (JStr existing) =>
            if Py.contains existing scope_clause then inres
            else
              let separator :=
                if existsb (fun e => Py.endswith existing e)
                           [u8 "。"; u8 "."; u8 "；"; u8 ";"]
                then [] else u8 " " in
              Dict.set (u8 "allowed_external_research")
                (JStr (existing ++ separator ++ scope_clause)) inres
        | _ => Dict.set (u8 "allowed_external_research") (JStr scope_clause) inres
        end) payload in
    let payload :=
      in_block (u8 "standard_answer") (fun standard_answer =>
        let standard_answer := rewrite_present _replace_text (u8 "summary") standard_answer in
        rewrite_present _sanitize_list (u8 "key_points") standard_answer) payload in
    let payload :=
      in_block (u8 "evaluation_guide") (fun evaluation =>
        let evaluation := rewrite_present _replace_text (u8 "summary") evaluation in
        rewrite_present_keys _sanitize_list [u8 "checkpoints"; u8 "scoring_rubric"]
          evaluation) payload in
    payload.

(** *** [_enforce_sop_compliance] *)

Definition training_rules : list (Re.regex * pystr) :=
  [ ([Re.iword (u8 "分布式训练")], u8 "分布式推理/验证");
    ([Re.iword (u8 "训练/推理")], u8 "推理/验证");
    ([Re.iword (u8 "训练日志")], u8 "推理/验证日志");
    ([Re.iword (u8 "训练吞吐")], u8 "推理吞吐");
    ([Re.iword (u8 "训练") ++ [Re.Star Py.isspace] ++ Re.iword (u8 "性能")], u8 "推理/验证性能");
    ([Re.iword (u8 "训练PPL")], u8 "验证PPL");
    ([Re.iword (u8 "训练") ++ [Re.Star Py.isspace] ++ Re.iword (u8 "稳定性")], u8 "验证稳定性");
    ([Re.iword (u8 "训练")], u8 "验证");
    ([Re.iword (u8 "fine") ++ [Re.Opt [Re.ci 45]] ++ Re.iword (u8 "tune");
      Re.iword (u8 "微调")], u8 "验证实验");
    ([Re.iword (u8 "大规模")], u8 "小规模可复核");
    ([Re.iword (u8 "长时间")], u8 "短时") ].

Definition _sanitize_text (s : pystr) : pystr := apply_rules training_rules s.

(** [a = d.get(k) or []; if isinstance(a, list): d[k] = [f(str(x)) for x in a]] *)
Definition rewrite_strs_or_empty (f : pystr -> pystr) (k : pystr) (d : dict) : dict :=
  match get_or k d (JList []) with
  | JList l => Dict.set k (JList (map (fun x => JStr (f (py_str x))) l)) d
  | _ => d
  end.

Definition tool_usage_guardrail : pystr := Eval vm_compute in
  u8 "以单一核心Agent（Call Code或Deep Research）主导，强调检索-复核-对比；禁止大规模训练，允许短时验证实验（≤2 GPU·小时）".
Definition notes_add : pystr := Eval vm_compute in
  u8 " 资源与时间护栏：≤1周完成；仅使用公开可获取或合成数据；禁止长时间/大规模训练；如需运行实验，仅限短时验证（≤2 GPU·小时）。".

Definition _enforce_sop_compliance (payload : dict) : dict :=
  let level := Py.upper (py_str (get_or (u8 "level") payload (JStr []))) in
  if negb (Py.eqb level (u8 "L4")) then payload
  else
    let payload := rewrite_strs_or_empty _sanitize_text (u8 "task_objectives") payload in
    let payload :=
      in_block (u8 "deliverables") (fun deliver =>
        let deliver := rewrite_strs_or_empty _sanitize_text (u8 "expected_outputs") deliver in
        let deliver := rewrite_str _sanitize_text (u8 "format_requirements") deliver in
        rewrite_str _sanitize_text (u8 "quality_bar") deliver) payload in
    let payload := rewrite_strs_or_empty _sanitize_text (u8 "grading_rubric") payload in
    let payload :=
      in_block (u8 "evaluation_guide") (fun eg =>
        let eg := rewrite_strs_or_empty _sanitize_text (u8 "checkpoints") eg in
        rewrite_strs_or_empty _sanitize_text (u8 "scoring_rubric") eg) payload in
    let payload :=
      in_block (u8 "standard_answer") (fun sa =>
        let sa := rewrite_strs_or_empty _sanitize_text (u8 "key_points") sa in
        rewrite_str _sanitize_text (u8 "summary") sa) payload in
    let payload := rewrite_str (fun _ => tool_usage_guardrail) (u8 "tool_usage_expectation")
                     payload in
    let notes := get_or (u8 "notes") payload (JStr []) in
    Dict.set (u8 "notes")
      (JStr (Py.strip (Py.strip (py_str notes) ++ u8 " " ++ notes_add))) payload.

(** *** [_drop_primary_from_provided_materials] *)

(** The URL pattern: [http], an optional [s], [://], then one or more
    characters other than white space, a closing parenthesis, a closing
    square bracket and a double quote. *)
Definition url_char (c : N) : bool :=
  negb (Py.isspace c || (c =? 41) || (c =? 93) || (c =? 34)).
Definition url_re : Re.regex :=
  [Re.word (u8 "http") ++ [Re.Opt [Re.ch 115]] ++ Re.word (u8 "://")
   ++ [Re.Chr url_char; Re.Star url_char]].

Definition host_of (url : pystr) : pystr := Py.lower (Url.netloc (Url.urlparse url)).

(** The test that drops an entry of the provided materials. *)
Definition names_primary (primary_url p_host primary_title : pystr) (entry : json) : bool :=
  let text := if truthy entry then py_str entry else [] in
  let urls := Re.findall url_re text in
  let hosts := map host_of urls in
  existsb (fun u => Py.eqb (Py.strip u) primary_url) urls
  || (match p_host with [] => false | _ => bool_decide (p_host ∈ hosts) end)
  || (match primary_title with [] => false | _ => Py.contains text primary_title end).

(** The backfill loop over [refs[:3]]. *)
Fixpoint backfill (primary_url p_host : pystr) (refs : list json) (kept : list json)
  : result (list json) :=
  match refs with
  | [] => Ok kept
  | JDict ref :: later =>
      let* u := stripped_or (u8 "url") ref [] in
      match u with
      | [] => backfill primary_url p_host later kept
      | _ =>
          let h := host_of u in
          if Py.eqb u primary_url
             || (match p_host with [] => false | _ => Py.eqb h p_host end)
          then backfill primary_url p_host later kept
          else
            let* title := stripped_or (u8 "title") ref u in
            let kept := kept ++ [JStr (title ++ u8 ": " ++ u)] in
            if (3 <=? length kept)%nat then Ok kept
            else backfill primary_url p_host later kept
      end
  | _ :: later => backfill primary_url p_host later kept
  end.

(** [refs[:3]] for the value of [payload.get("references") or []]. *)
Definition first_refs (v : json) : result (list json) :=
  match v with
  | JList l => Ok (take 3 l)
  | JStr s => Ok (map (fun c => JStr [c]) (take 3 s))
  | _ => Raise (OtherError (u8 "TypeError: object is not subscriptable"))
  end.

Definition _drop_primary_from_provided_materials (payload : dict) : result dict :=
  let* gt := dict_or_empty (u8 "ground_truth") payload in
  let* primary := dict_or_empty (u8 "primary") gt in
  let* primary_url := stripped_or (u8 "url") primary [] in
  let* primary_title := stripped_or (u8 "title") primary [] in
  match primary_url with
  | [] => Ok payload
  | _ =>
      let p_host := host_of primary_url in
      let* inres := dict_or_empty (u8 "inputs_and_resources") payload in
      let* items := py_list (get_or (u8 "provided_materials") inres (JList [])) in
      let kept :=
        List.filter (fun entry => negb (names_primary primary_url p_host primary_title entry))
                    items in
      let* kept :=
        match kept with
        | [] =>
            let* refs := first_refs (get_or (u8 "references") payload (JList [])) in
            backfill primary_url p_host refs []
        | _ => Ok kept
        end in
      let inres := Dict.set (u8 "provided_materials") (JList kept) inres in
      Ok (Dict.set (u8 "inputs_and_resources") (JDict inres) payload)
  end.

(** *** [_post_process] *)

Definition usage_notes_text : pystr := Eval vm_compute in
  u8 "引用规范：优先使用Ground Truth（主+辅）作为判分依据；允许引用 references 列表中的公开资料作为补充，需标注来源/访问日期/页码（或段落）；若与Ground Truth存在冲突，以Ground Truth为准。".

Definition default_standard_answer : dict :=
  [ (u8 "summary", JStr (u8 "请基于Ground Truth提炼关键论断并形成可验证的执行方案。"));
    (u8 "key_points",
     str_list [ u8 "覆盖任务目标、行动步骤与验收标准。";
                u8 "每个关键判断引用Ground Truth并提供验证方式。" ]) ].

Definition default_evaluation_guide (scoring_rubric : list json) : dict :=
  [ (u8 "summary",
     JStr (u8 "评估交付是否满足SOP 8.0（三E、训练/算力红线、安全合规与时间窗口）并与Ground Truth一致。"));
    (u8 "checkpoints",
     str_list [ u8 "任务范围、交付格式、验收标准均有明确说明（Executable）。";
                u8 "关键判断可触发高阶能动性，考察目标明确（Examining）。";
                u8 "评分标准可量化、可复核；与参考资料/基准有对齐指标（Evaluable）。";
                u8 "遵守训练/算力红线：training-free；禁止从头训练或长时间/昂贵算力依赖。";
                u8 "引用公开、中立、国际化资料；必要时脱敏；设定并遵守资料使用的时间窗口。" ]);
    (u8 "scoring_rubric", JList scoring_rubric) ].

Definition context_source_of (doc : dict) : json :=
  let field k := default JNull (Dict.get k doc) in
  JDict [ (u8 "name", field (u8 "name"));
          (u8 "source_url", field (u8 "source"));
          (u8 "local_path", field (u8 "path"));
          (u8 "sha256", field (u8 "sha256"));
          (u8 "content_type", field (u8 "content_type"));
          (u8 "query", field (u8 "query"));
          (u8 "snippet", field (u8 "content")) ].

Definition _post_process (raw_output : dict) (spec : QuerySpec) (context : ContextBundle)
    (ground_truth_bundle : GroundTruthBundle) (gt_cache : dict)
    (all_results : list SearchResult) : result dict :=
  let payload := raw_output in
  let payload := Dict.setdefault (u8 "query_id") (JStr (query_id spec)) payload in
  let* lvl := normalized_level spec in
  let payload := Dict.set (u8 "level") (JStr lvl) payload in
  let* ori := normalized_orientation spec in
  let payload := Dict.set (u8 "orientation") (JStr ori) payload in
  let payload := Dict.setdefault (u8 "context") (JDict (ContextBundle_to_dict context))
                   payload in
  let context_sources := get_or (u8 "context_sources") payload (JList []) in
  let context_sources :=
    if negb (truthy context_sources) then
      JList (map context_source_of (context_documents spec))
    else context_sources in
  let payload := Dict.set (u8 "context_sources") context_sources payload in
  let* ground_truth_section := dict_or_empty (u8 "ground_truth") payload in
  let ground_truth_section :=
    Dict.update ground_truth_section (GroundTruthBundle_to_dict ground_truth_bundle) in
  let ground_truth_section :=
    Dict.setdefault (u8 "usage_notes") (JStr usage_notes_text) ground_truth_section in
  let ground_truth_section :=
    match gt_cache with
    | [] => ground_truth_section
    | _ => Dict.setdefault (u8 "cache") (JDict gt_cache) ground_truth_section
    end in
  let payload := Dict.set (u8 "ground_truth") (JDict ground_truth_section) payload in
  let gt_urls :=
    sr_url (primary ground_truth_bundle) :: map sr_url (supporting ground_truth_bundle) in
  let references :=
    List.filter (fun r => negb (bool_decide (sr_url r ∈ gt_urls))) all_results in
  let payload :=
    Dict.set (u8 "references") (JList (map (fun r => JDict (source_to_dict r)) references))
      payload in
  let payload :=
    Dict.set (u8 "search_results")
      (JList (map (fun r => JDict (source_to_dict r)) all_results)) payload in
  let payload := Dict.setdefault (u8 "standard_answer") (JDict default_standard_answer)
                   payload in
  let* scoring_rubric :=
    py_list (default (JList []) (Dict.get (u8 "grading_rubric") payload)) in
  let payload :=
    Dict.setdefault (u8 "evaluation_guide")
      (JDict (default_evaluation_guide scoring_rubric)) payload in
  let payload := Dict.set (u8 "sop_version") (JStr (u8 "8.0")) payload in
  let* metadata := to_metadata spec in
  let payload := Dict.set (u8 "spec_metadata") (JDict metadata) payload in
  let* payload := _drop_primary_from_provided_materials payload in
  let payload := _scrub_public_gt_terms payload in
  let payload := _sanitize_internal_scope payload context in
  let payload := _enforce_sop_compliance payload in
  Ok payload.

(** ** Vocabulary of the statements about patterns *)

(** A pattern made of single characters and starred classes only. *)
Definition simple_atom (a : Re.atom) : Prop :=
  match a with
  | Re.Chr _ | Re.Star _ => True
  | _ => False
  end.

(** The class of an atom accepts the character. *)
Definition atom_accepts (a : Re.atom) (c : N) : bool :=
  match a with
  | Re.Chr p | Re.Star p => p c
  | Re.Opt ps => existsb (fun p => p c) ps
  | Re.WordB => false
  end.

(** [matches pat s n]: the pattern matches the first [n] characters of [s]
    (the declarative reading of a simple pattern). *)
Inductive matches : Re.pattern -> pystr -> nat -> Prop :=
  | matches_nil (s : pystr) : matches [] s 0
  | matches_chr (p : N -> bool) (rest : Re.pattern) (c : N) (t : pystr) (n : nat) :
      p c = true -> matches rest t n -> matches (Re.Chr p :: rest) (c :: t) (S n)
  | matches_star_done (p : N -> bool) (rest : Re.pattern) (s : pystr) (n : nat) :
      matches rest s n -> matches (Re.Star p :: rest) s n
  | matches_star_more (p : N -> bool) (rest : Re.pattern) (c : N) (t : pystr) (n : nat) :
      p c = true -> matches (Re.Star p :: rest) t n ->
      matches (Re.Star p :: rest) (c :: t) (S n).

(** The pattern matches, with at least one character, at the start. *)
Definition starts (re : Re.regex) (s : pystr) : bool :=
  match Re.match_at re None s with
  | Some (S _) => true
  | _ => false
  end.

(** No match starts within [s]; no match starts within [kept] when [rest]
    follows it. *)
Fixpoint nostart (re : Re.regex) (s : pystr) : bool :=
  match s with
  | [] => true
  | _ :: t => negb (starts re s) && nostart re t
  end.

Fixpoint nostart_before (re : Re.regex) (kept rest : pystr) : bool :=
  match kept with
  | [] => true
  | _ :: k => negb (starts re (kept ++ rest)) && nostart_before re k rest
  end.

(** ** Vocabulary of the statements about payloads *)

(** The value at a path of keys. *)
Fixpoint lookup_path (path : list pystr) (v : json) : option json :=
  match path with
  | [] => Some v
  | k :: rest =>
      match v with
      | JDict d =>
          match Dict.get k d with
          | Some v' => lookup_path rest v'
          | None => None
          end
      | _ => None
      end
  end.

Inductive field_kind := Text | TextList.

(** The fields that [_scrub_public_gt_terms] walks: texts and arrays of
    texts. *)
Definition scrubbed_fields : list (list pystr * field_kind) :=
  [ ([u8 "title"], Text); ([u8 "role_and_background"], Text);
    ([u8 "tool_usage_expectation"], Text); ([u8 "estimated_human_time"], Text);
    ([u8 "notes"], Text);
    ([u8 "task_objectives"], TextList); ([u8 "grading_rubric"], TextList);
    ([u8 "deliverables"; u8 "expected_outputs"], TextList);
    ([u8 "deliverables"; u8 "format_requirements"], Text);
    ([u8 "deliverables"; u8 "quality_bar"], Text);
    ([u8 "inputs_and_resources"; u8 "provided_materials"], TextList);
    ([u8 "inputs_and_resources"; u8 "allowed_external_research"], Text);
    ([u8 "inputs_and_resources"; u8 "ground_truth_usage"], Text);
    ([u8 "inputs_and_resources"; u8 "reference_usage"], Text);
    ([u8 "standard_answer"; u8 "summary"], Text);
    ([u8 "standard_answer"; u8 "key_points"], TextList);
    ([u8 "evaluation_guide"; u8 "summary"], Text);
    ([u8 "evaluation_guide"; u8 "checkpoints"], TextList);
    ([u8 "evaluation_guide"; u8 "scoring_rubric"], TextList);
    ([u8 "context"; u8 "persona"; u8 "name"], Text);
    ([u8 "context"; u8 "persona"; u8 "description"], Text);
    ([u8 "context"; u8 "user_statement"], Text);
    ([u8 "context"; u8 "constraints"], TextList);
    ([u8 "context"; u8 "available_assets"], TextList);
    ([u8 "context"; u8 "success_metrics"], TextList) ].

(** The text (every text of the array) has no occurrence of the term. *)
Definition term_free (s : pystr) : Prop := Re.search gt_term_re s = false.

Definition free_of_term (kind : field_kind) (v : json) : Prop :=
  match kind, v with
  | Text, JStr s => term_free s
  | TextList, JList l => Forall (fun x => ∃ s, x = JStr s ∧ term_free s) l
  | _, _ => True
  end.

(** ** Vocabulary of the statements about the provided materials *)

(** The URL and the title of the primary, as the removal reads them from
    the payload, and the entries of the list it filters. *)
Definition primary_of (payload : dict) : result (pystr * pystr) :=
  let* gt := dict_or_empty (u8 "ground_truth") payload in
  let* primary := dict_or_empty (u8 "primary") gt in
  let* primary_url := stripped_or (u8 "url") primary [] in
  let* primary_title := stripped_or (u8 "title") primary [] in
  Ok (primary_url, primary_title).

Definition materials_of (payload : dict) : result (list json) :=
  let* inres := dict_or_empty (u8 "inputs_and_resources") payload in
  py_list (get_or (u8 "provided_materials") inres (JList [])).

(** The text of an entry, [str(s or '')], and the URLs found in it. *)
Definition entry_text (entry : json) : pystr :=
  if truthy entry then py_str entry else [].
Definition entry_urls (entry : json) : list pystr :=
  Re.findall url_re (entry_text entry).

(** An entry that the removal keeps: none of the URLs found in it is the
    primary's, none of them is on the primary's host, and the text does not
    contain the primary's title (a test made only for a host, a title, that
    is not empty). *)
Definition clear_of_primary (primary_url p_host primary_title : pystr) (entry : json)
  : Prop :=
  (∀ u, u ∈ entry_urls entry -> Py.strip u ≠ primary_url)
  ∧ (p_host ≠ [] -> p_host ∉ map host_of (entry_urls entry))
  ∧ (primary_title ≠ [] -> Py.contains (entry_text entry) primary_title = false).

(** An entry made from a reference: [title: url], for a reference whose
    URL is not empty, is not the primary's and is not on the primary's
    host. *)
Definition backfilled_from (primary_url p_host : pystr) (refs : list json) (entry : json)
  : Prop :=
  ∃ ref u title,
    JDict ref ∈ refs
    ∧ stripped_or (u8 "url") ref [] = Ok u
    ∧ u ≠ [] ∧ u ≠ primary_url
    ∧ (p_host ≠ [] -> host_of u ≠ p_host)
    ∧ stripped_or (u8 "title") ref u = Ok title
    ∧ entry = JStr (title ++ u8 ": " ++ u).

(** ** Vocabulary of the statements about repeated passes *)

(** Some atom of the pattern, of the expression, accepts the character. *)
Definition pat_accepts (pat : Re.pattern) (c : N) : bool :=
  existsb (fun a => atom_accepts a c) pat.
Definition re_accepts (re : Re.regex) (c : N) : bool :=
  existsb (fun pat => pat_accepts pat c) re.

(** The number of occurrences of a character in a text. *)
Definition occurrences (c : N) (s : pystr) : nat :=
  length (List.filter (fun x => x =? c) s).

(** The sign [U+2264] (less than or equal to): the guardrail clause has it
    twice. *)
Definition guard_sign : N := 8804.

(** The level that the compliance rewriting reads from a payload. *)
Definition level_of (payload : dict) : pystr :=
  Py.upper (py_str (get_or (u8 "level") payload (JStr []))).

(** The notes of a payload, when they are a text. *)
Definition notes_of (payload : dict) : option pystr :=
  match Dict.get (u8 "notes") payload with
  | Some (JStr s) => Some s
  | _ => None
  end.

(** ** Vocabulary of the statements about the batch *)

(** A world that also records the invocations of [run_search] made by the
    units of work: the cache key and whether the search succeeded. *)
Definition search_log : Type := list (cache_key_t * bool).

Definition is_ok {A} (r : result A) : bool :=
  match r with Ok _ => true | Raise _ => false end.

Definition counting {W : Type} (agent : Agent)
    (run_search : QuerySpec -> W -> result (list SearchResult) * W)
  : QuerySpec -> W * search_log -> result (list SearchResult) * (W * search_log) :=
  fun spec '(w, log) =>
    let '(r, w') := run_search spec w in
    (r, (w', log ++ [(cache_key agent spec, is_ok r)])).

Definition keeping_log {W A B : Type} (f : A -> W -> B * W)
  : A -> W * search_log -> B * (W * search_log) :=
  fun a '(w, log) => let '(b, w') := f a w in (b, (w', log)).

Definition keeping_log2 {W A B C : Type} (f : A -> B -> W -> C * W)
  : A -> B -> W * search_log -> C * (W * search_log) :=
  fun a b '(w, log) => let '(c, w') := f a b w in (c, (w', log)).

(** The invocations recorded for a key, and the successful ones. *)
Definition invocations (k : cache_key_t) (log : search_log) : nat :=
  length (List.filter (fun e => bool_decide (e.1 = k)) log).
Definition successes (k : cache_key_t) (log : search_log) : nat :=
  length (List.filter (fun e => bool_decide (e = (k, true))) log).

(** The units of work that ask for a key. *)
Definition requests (agent : Agent) (k : cache_key_t) (specs : list QuerySpec) : nat :=
  length (List.filter (fun sp => bool_decide (cache_key agent sp = k)) specs).

(** A unit of work that is past its cache look-up with the search done or
    not needed. *)
Definition past_search (wk : worker) : bool :=
  match wk with
  | Searched _ _ | Ready _ _ | Finished _ => true
  | Queued _ | Missed _ => false
  end.

(** The number of units of work for key [k] that are past the search. *)
Fixpoint past_requests (agent : Agent) (k : cache_key_t) (specs : list QuerySpec)
    (ws : list worker) : nat :=
  match specs, ws with
  | sp :: specs', wk :: ws' =>
      ((if bool_decide (cache_key agent sp = k) && past_search wk then 1 else 0)
       + past_requests agent k specs' ws')%nat
  | _, _ => 0%nat
  end.

(** The unit of work at a position is the one of the specification at
    that position. *)
Definition worker_of (sp : QuerySpec) (wk : worker) : Prop :=
  match wk with
  | Queued spec | Missed spec | Searched spec _ | Ready spec _ => spec = sp
  | Finished _ => True
  end.

(** What the fan-in keeps of one outcome. *)
Definition kept (out : result (option dict)) : option dict :=
  match out with
  | Ok (Some payload) => if truthy (JDict payload) then Some payload else None
  | _ => None
  end.

(** The invariant of the sequential run: a key with a successful search
    is in the cache, and no key has more than one successful search. *)
Definition cache_agrees (cache : gmap cache_key_t (list SearchResult))
    (log : search_log) : Prop :=
  ∀ k, (successes k log <= 1)%nat ∧ (cache !! k = None -> successes k log = 0%nat).

(** The invariant of the interleaved runs: every position holds the unit
    of work of its specification, and the invocations for a key are at most
    the units of work for that key that are past the search. *)
Definition pool_agrees {W : Type} (agent : Agent) (specs : list QuerySpec)
    (p : pool (W := W * search_log)) : Prop :=
  Forall2 worker_of specs (workers p)
  ∧ ∀ k, (invocations k (pool_shared p).2.2
          <= past_requests agent k specs (workers p))%nat.

(** ** Vocabulary of the statements about the orientation *)

(** The value that [normalized_orientation] tests. *)
Definition orientation_value (spec : QuerySpec) : pystr :=
  Py.lower (Py.strip (Py.or_else (orientation spec) (u8 "positive"))).

(** ** Vocabulary of the statements about the selector *)

(** [x] is the first element of least key in [l]; no element of [l] is
    followed by one of smaller key. *)
Definition first_minimum {A : Type} (key : A -> nat * nat) (x : A) (l : list A) : Prop :=
  ∃ l1 l2, l = l1 ++ x :: l2
           ∧ (∀ y, y ∈ l1 -> score_lt (key x) (key y) = true)
           ∧ (∀ y, y ∈ l2 -> score_lt (key y) (key x) = false).

Definition ascending {A : Type} (key : A -> nat * nat) (l : list A) : Prop :=
  StronglySorted (fun x y => score_lt (key y) (key x) = false) l.

Definition is_viable (r : SearchResult) : bool := _is_viable_ground_truth (sr_url r).
Definition score_of (r : nat * SearchResult) : nat * nat := _primary_score (sr_url r.2).

(** The candidates the primary is chosen from, in discovery order: the
    viable hits, restricted to those that pass the probe when some do. *)
Definition candidate_pool (probe : pystr -> bool) (results : list SearchResult)
  : list (nat * SearchResult) :=
  let viable := List.filter (fun r => is_viable r.2) (enumerate results) in
  match List.filter (fun r => probe (sr_url r.2)) viable with
  | [] => viable
  | reachable => reachable
  end.

(** The document-type priority, in the specification's words: 0 for direct
    PDF URLs, 1 for source-control hosting, 2 for model and artifact hubs,
    5 for everything else. *)
Definition is_pdf_url (u : pystr) : bool :=
  Py.endswith (Py.lower u) (u8 ".pdf") || Py.contains (Py.lower u) (u8 "/pdf").
Definition is_source_control_url (u : pystr) : bool :=
  Py.contains (Py.lower u) (u8 "github.com") || Py.contains (Py.lower u) (u8 "gitlab.com")
  || Py.contains (Py.lower u) (u8 "bitbucket.org").
Definition is_model_hub_url (u : pystr) : bool :=
  Py.contains (Py.lower u) (u8 "huggingface.co").
Definition document_rank (u : pystr) : nat :=
  if is_pdf_url u then 0%nat
  else if is_source_control_url u then 1%nat
  else if is_model_hub_url u then 2%nat
  else 5%nat.

(** Hits and collaborators used in the examples. *)
Definition hit (title url snippet : pystr) : SearchResult :=
  {| sr_title := title; sr_url := url; sr_snippet := snippet;
     sr_source := None; sr_date := None; sr_search_query := None |}.

Definition pdf_hit : SearchResult :=
  hit (u8 "Safety standard 2023") (u8 "https://www.gov.cn/files/safety-standard-2023.pdf")
      (u8 "full text").
Definition html_hit : SearchResult :=
  hit (u8 "Safety news") (u8 "https://www.gov.cn/news/safety.html") (u8 "press release").

(** Two different hits for one URL. *)
Definition report_hit : SearchResult :=
  hit (u8 "Annual report") (u8 "https://example.org/report") (u8 "the report").
Definition report_mirror_hit : SearchResult :=
  hit (u8 "Annual report (cached)") (u8 "https://example.org/report") (u8 "a copy").
(** A hit on a link aggregator whose snippet names a domain. *)
Definition aggregator_hit : SearchResult :=
  hit (u8 "Search") (u8 "https://duckduckgo.com/l/?q=report") (u8 "see example.org for the report").

(** A backend without state that fails every query, one that answers every
    query with the same hits, and a probe that accepts every URL. *)
Definition failing_backend : backend unit :=
  fun _ _ _ _ _ st => (Failed (u8 "offline"), st).
Definition constant_backend (hits : list SearchResult) : backend unit :=
  fun _ _ _ _ _ st => (Hits hits, st).
Definition probe_all : pystr -> bool := fun _ => true.

(** A specification as a configuration file gives it: identifier [q1],
    level [L3], two search queries. *)
Definition proto_q1 : QuerySpec :=
  {| query_id := u8 "q1"; level := u8 "L3"; scenario := u8 "scenario";
     language := u8 "zh"; task_focus := []; deliverable_requirements := [];
     evaluation_focus := []; notes := None; orientation := Some (u8 "positive");
     industry := None; profession := None; context_bundle := None;
     task_metadata := []; context_documents := []; search_queries := [] |}.

Definition spec_two_queries : QuerySpec :=
  {| query_id := u8 "q1"; level := u8 "L3"; scenario := u8 "scenario";
     language := u8 "zh"; task_focus := []; deliverable_requirements := [];
     evaluation_focus := []; notes := None; orientation := Some (u8 "positive");
     industry := None; profession := None; context_bundle := None;
     task_metadata := []; context_documents := [];
     search_queries := [u8 "alpha"; u8 "beta"] |}.

Definition with_orientation (o : option pystr) (spec : QuerySpec) : QuerySpec :=
  {| query_id := query_id spec; level := level spec; scenario := scenario spec;
     language := language spec; task_focus := task_focus spec;
     deliverable_requirements := deliverable_requirements spec;
     evaluation_focus := evaluation_focus spec;
     notes := notes spec; orientation := o;
     industry := industry spec; profession := profession spec;
     context_bundle := context_bundle spec;
     task_metadata := task_metadata spec;
     context_documents := context_documents spec;
     search_queries := search_queries spec |}.

(** Collaborators for the examples: a search that finds the PDF hit, a
    generation that returns the identifier only, and a packaging that fails
    on the package of [q1]. *)
Definition spec_q2 : QuerySpec :=
  {| query_id := u8 "q2"; level := u8 "L3"; scenario := u8 "scenario";
     language := u8 "zh"; task_focus := []; deliverable_requirements := [];
     evaluation_focus := []; notes := None; orientation := Some (u8 "positive");
     industry := None; profession := None; context_bundle := None;
     task_metadata := []; context_documents := [];
     search_queries := [u8 "alpha"; u8 "beta"] |}.

Definition example_agent : Agent :=
  {| serper_endpoint := u8 "https://google.serper.dev/search"; market := u8 "us" |}.
Definition example_search : QuerySpec -> unit -> result (list SearchResult) * unit :=
  fun _ w => (Ok [pdf_hit], w).
Definition example_build : QuerySpec -> list SearchResult -> unit -> result dict * unit :=
  fun spec _ w => (Ok [(u8 "query_id", JStr (query_id spec))], w).
Definition example_save : dict -> unit -> result pystr * unit :=
  fun payload w =>
    match Dict.get (u8 "query_id") payload with
    | Some (JStr qid) =>
        if Py.eqb qid (u8 "q1")
        then (Raise (OtherError (u8 "OSError: No space left on device")), w)
        else (Ok (u8 "/packages/L3/positive/" ++ qid), w)
    | _ => (Ok (u8 "/packages/L3/positive/unknown"), w)
    end.

(** The payload that the unit of work of [q2] returns in the examples. *)
Definition payload_q2 : dict :=
  [ (u8 "query_id", JStr (u8 "q2"));
    (u8 "_package_dir", JStr (u8 "/packages/L3/positive/q2")) ].
Definition packaging_error : exn := OtherError (u8 "OSError: No space left on device").

(** Inputs of the post-processing used in the examples: a persona and a
    context that name no internal asset, a hit whose title uses the term of
    the judges, a copy of the standard on another host, and one more page. *)
Definition example_persona : PersonaProfile :=
  {| identifier := u8 "p1"; name := u8 "Analyst"; seniority := u8 "senior";
     description := u8 "reviews public standards"; motivations := [];
     pain_points := [] |}.
Definition example_context : ContextBundle :=
  {| persona := example_persona; user_statement := u8 "compare the standards";
     constraints := [u8 "public sources only"]; available_assets := [];
     success_metrics := [] |}.

Definition term_hit : SearchResult :=
  hit (u8 "Ground Truth dataset card") (u8 "https://data.example.net/card") (u8 "dataset").
Definition mirror_hit : SearchResult :=
  hit (u8 "Safety standard 2023 (mirror)")
      (u8 "https://mirror.example.net/safety-standard-2023.html") (u8 "a copy").
Definition faq_hit : SearchResult :=
  hit (u8 "Safety FAQ") (u8 "https://faq.example.com/safety") (u8 "questions").

(** A generated object whose title and [ground_truth] notes use the term. *)
Definition raw_with_term : dict :=
  [ (u8 "title", JStr (u8 "Ground Truth review"));
    (u8 "ground_truth", JDict [(u8 "usage_notes", JStr (u8 "Ground Truth only"))]) ].

(** A generated object that lists the primary among the materials given to
    the solver, alone and next to a public page. *)
Definition primary_entry : pystr :=
  u8 "Safety standard 2023: https://www.gov.cn/files/safety-standard-2023.pdf".
Definition faq_entry : pystr := u8 "Public FAQ, see https://faq.example.com/safety".
Definition mirror_entry : pystr :=
  u8 "Safety standard 2023 (mirror): https://mirror.example.net/safety-standard-2023.html".

Definition raw_listing_primary : dict :=
  [ (u8 "inputs_and_resources",
     JDict [(u8 "provided_materials", JList [JStr primary_entry])]) ].

(** A payload as the removal step receives it: the primary is the PDF hit,
    the materials are the primary and a public page. *)
Definition payload_before_removal : dict :=
  [ (u8 "inputs_and_resources",
     JDict [(u8 "provided_materials", JList [JStr primary_entry; JStr faq_entry])]);
    (u8 "ground_truth", JDict [(u8 "primary", JDict (source_to_dict pdf_hit))]);
    (u8 "references", JList [JDict (source_to_dict mirror_hit)]) ].

(** A specification of level [L4], the bundle of the examples and the
    guardrail clause as it stands in the notes. *)
Definition spec_l4 : QuerySpec :=
  {| query_id := u8 "q4"; level := u8 "L4"; scenario := u8 "scenario";
     language := u8 "zh"; task_focus := []; deliverable_requirements := [];
     evaluation_focus := []; notes := None; orientation := Some (u8 "positive");
     industry := None; profession := None; context_bundle := None;
     task_metadata := []; context_documents := [];
     search_queries := [u8 "alpha"] |}.
Definition pdf_bundle : GroundTruthBundle := {| primary := pdf_hit; supporting := [] |}.
Definition guardrail_clause : pystr := Eval vm_compute in Py.strip notes_add.

(** * Properties *)

(** ** Strings *)

Lemma lstrip_all_space (s : pystr) :
  Forall (fun c => Py.isspace c = true) s -> Py.lstrip s = [].
Proof.
  induction 1 as [|c t Hc _ IH]; simpl; [done|]. by rewrite Hc.
Qed.

Lemma strip_all_space (s : pystr) :
  Forall (fun c => Py.isspace c = true) s -> Py.strip s = [].
Proof.
  intros H. unfold Py.strip. by rewrite (lstrip_all_space s H).
Qed.

(** ** Orientation *)

Lemma normalized_orientation_cases (spec : QuerySpec) :
  (orientation_value spec ∈ [u8 "positive"; u8 "inverse"]
   ∧ normalized_orientation spec = Ok (orientation_value spec))
  ∨ ((orientation_value spec ∉ [u8 "positive"; u8 "inverse"])
     ∧ ∃ msg, normalized_orientation spec = Raise (ValueError msg)).
Proof.
  unfold normalized_orientation. fold (orientation_value spec).
  case_bool_decide; [left|right]; split; eauto.
Qed.

(** C10, as stated, fails on a blank orientation: a string of one space is
    truthy, so it is not replaced by the default; trimmed it is the empty
    string, which is neither value, and the call raises. *)
Lemma normalized_orientation_blank_raises :
  normalized_orientation (with_orientation (Some (u8 " ")) spec_two_queries)
  = Raise (ValueError (u8 "Unsupported orientation ' '. Expected 'positive' or 'inverse'."))
  ∧ normalized_orientation (with_orientation (Some (u8 " ")) spec_two_queries)
    ≠ Ok (u8 "positive").
Proof. split; [vm_compute; reflexivity | vm_compute; discriminate]. Qed.

(** C10 (amended): [normalized_orientation] returns ['positive'] when the
    orientation is [None] or the empty string; recognition is insensitive to
    case and to surrounding white space ([' Inverse '] gives ['inverse']); it
    raises exactly when the orientation is a non-empty string whose trimmed,
    lowercased value is neither ['positive'] nor ['inverse'], which includes
    every non-empty string of white space only; when it does not raise it
    returns that trimmed, lowercased value. *)
Theorem normalized_orientation_spec (spec : QuerySpec) :
  (orientation spec = None ∨ orientation spec = Some [] ->
     normalized_orientation spec = Ok (u8 "positive"))
  ∧ normalized_orientation (with_orientation (Some (u8 " Inverse ")) spec)
    = Ok (u8 "inverse")
  ∧ ((∃ e, normalized_orientation spec = Raise e)
     <-> ∃ s, orientation spec = Some s ∧ s ≠ []
              ∧ Py.lower (Py.strip s) ≠ u8 "positive"
              ∧ Py.lower (Py.strip s) ≠ u8 "inverse")
  ∧ (∀ s, orientation spec = Some s -> s ≠ [] ->
          Forall (fun c => Py.isspace c = true) s ->
          ∃ msg, normalized_orientation spec = Raise (ValueError msg))
  ∧ (∀ v, normalized_orientation spec = Ok v ->
          v = Py.lower (Py.strip (Py.or_else (orientation spec) (u8 "positive")))
          ∧ (v = u8 "positive" ∨ v = u8 "inverse")).
Proof.
  split; [|split; [|split; [|split]]].
  - intros [H|H]; unfold normalized_orientation; rewrite H; vm_compute; reflexivity.
  - vm_compute; reflexivity.
  - split.
    + intros [e He].
      destruct (normalized_orientation_cases spec) as [[_ Hok]|[Hnot _]];
        [congruence|].
      unfold orientation_value in Hnot.
      destruct (orientation spec) as [[|c t]|] eqn:Ho.
      * exfalso. apply Hnot. apply elem_of_cons. left. vm_compute. reflexivity.
      * exists (c :: t). split; [done|]. split; [done|].
        simpl Py.or_else in Hnot.
        apply not_elem_of_cons in Hnot as [H1 H2].
        apply not_elem_of_cons in H2 as [H2 _]. split; assumption.
      * exfalso. apply Hnot. apply elem_of_cons. left. vm_compute. reflexivity.
    + intros (s & Ho & Hne & Hp & Hi).
      destruct (normalized_orientation_cases spec) as [[Hin _]|[_ [msg Hr]]];
        [|eauto].
      unfold orientation_value in Hin. rewrite Ho in Hin.
      destruct s as [|c t]; [done|]. simpl Py.or_else in Hin.
      rewrite !elem_of_cons, elem_of_nil in Hin. tauto.
  - intros s Ho Hne Hsp.
    destruct (normalized_orientation_cases spec) as [[Hin _]|[_ Hr]]; [|done].
    unfold orientation_value in Hin. rewrite Ho in Hin.
    destruct s as [|c t]; [done|]. simpl Py.or_else in Hin.
    rewrite (strip_all_space _ Hsp) in Hin.
    rewrite !elem_of_cons, elem_of_nil in Hin.
    destruct Hin as [Hin|[Hin|[]]]; vm_compute in Hin; discriminate.
  - intros v Hv.
    destruct (normalized_orientation_cases spec) as [[Hin Hok]|[_ [msg Hr]]];
      [|congruence].
    rewrite Hok in Hv. injection Hv as <-. split; [done|].
    rewrite !elem_of_cons, elem_of_nil in Hin. tauto.
Qed.

Lemma normalized_orientation_spec_witness :
  normalized_orientation (with_orientation None spec_two_queries) = Ok (u8 "positive")
  ∧ ∃ msg, normalized_orientation (with_orientation (Some [32; 9]) spec_two_queries)
           = Raise (ValueError msg).
Proof.
  split.
  - apply (proj1 (normalized_orientation_spec (with_orientation None spec_two_queries))).
    left; reflexivity.
  - apply (proj1 (proj2 (proj2 (proj2
      (normalized_orientation_spec (with_orientation (Some [32; 9]) spec_two_queries)))))
      [32; 9]).
    + reflexivity.
    + vm_compute; discriminate.
    + vm_compute. repeat constructor.
Defined.

(** ** Inverse clones *)

(** What [build_inverse_spec] does to the query list of any positive
    specification: the clone's list is recomputed from the first query. *)
Lemma build_inverse_spec_search_queries (spec clone : QuerySpec)
    (ids : option (gset pystr)) (hint : pystr) :
  build_inverse_spec spec None hint = Some (Ok (clone, ids)) ->
  search_queries clone = normalize_search_queries (RawStr (search_query spec))
  ∧ query_id clone = query_id spec ++ u8 "-inverse"
  ∧ orientation clone = Some (u8 "inverse")
  ∧ notes clone = Some (_ensure_inverse_notes (notes spec) hint)
  ∧ level clone = level spec ∧ scenario clone = scenario spec
  ∧ language clone = language spec ∧ task_focus clone = task_focus spec
  ∧ deliverable_requirements clone = deliverable_requirements spec
  ∧ evaluation_focus clone = evaluation_focus spec
  ∧ industry clone = industry spec ∧ profession clone = profession spec
  ∧ context_bundle clone = context_bundle spec
  ∧ task_metadata clone = task_metadata spec
  ∧ context_documents clone = context_documents spec.
Proof.
  unfold build_inverse_spec.
  destruct (normalized_orientation spec) as [o|e]; [|discriminate].
  destruct (negb (Py.eqb o (u8 "positive"))); [discriminate|].
  unfold dataclass_replace, QuerySpec_init, _set_search_queries, bind.
  cbn [query_id].
  destruct (normalize_search_queries (RawStr (search_query spec))) as [|q qs] eqn:Hn;
    [discriminate|].
  intros H. injection H as <- <-. cbn. repeat split; reflexivity.
Qed.

(** C1 (code defect): the specification built by
    [QuerySpec("q1", "L3", "scenario", ["alpha", "beta"])] is positive and
    has two queries; its inverse clone has the derived identifier, the
    inverse orientation and the hint as notes, but only the query
    ["alpha"]: the clone's query list is not the original's. *)
Theorem build_inverse_spec_drops_queries :
  QuerySpec_init proto_q1 (RawSeq [ItemStr (u8 "alpha"); ItemStr (u8 "beta")])
    = Ok spec_two_queries
  ∧ normalized_orientation spec_two_queries = Ok (u8 "positive")
  ∧ ∃ clone,
      build_inverse_spec spec_two_queries None INVERSE_NOTES_HINT = Some (Ok (clone, None))
      ∧ query_id clone = u8 "q1-inverse"
      ∧ orientation clone = Some (u8 "inverse")
      ∧ notes clone = Some INVERSE_NOTES_HINT
      ∧ search_queries spec_two_queries = [u8 "alpha"; u8 "beta"]
      ∧ search_queries clone = [u8 "alpha"]
      ∧ search_queries clone ≠ search_queries spec_two_queries.
Proof.
  split; [vm_compute; reflexivity|].
  split; [vm_compute; reflexivity|].
  eexists. split; [vm_compute; reflexivity|].
  repeat split; try (vm_compute; reflexivity).
  vm_compute. discriminate.
Qed.

(** ** The stable sort and the choice of the primary *)

Lemma score_lt_spec (a b : nat * nat) :
  score_lt a b = true <-> (a.1 < b.1 ∨ (a.1 = b.1 ∧ a.2 < b.2))%nat.
Proof.
  unfold score_lt.
  rewrite orb_true_iff, andb_true_iff, !Nat.ltb_lt, Nat.eqb_eq. tauto.
Qed.

Lemma score_lt_false (a b : nat * nat) :
  score_lt a b = false <-> (b.1 < a.1 ∨ (a.1 = b.1 ∧ b.2 <= a.2))%nat.
Proof.
  rewrite <- not_true_iff_false, score_lt_spec. lia.
Qed.

Section SortFacts.
Context {A : Type} (key : A -> nat * nat).

Lemma sorted_by_nil (l : list A) : sorted_by key l = [] -> l = [].
Proof.
  destruct l as [|a t]; [done|]. simpl.
  destruct (sorted_by key t) as [|y r]; simpl; [done|].
  destruct (score_lt (key y) (key a)); done.
Qed.

Lemma sorted_by_head (l : list A) (x : A) (rest : list A) :
  sorted_by key l = x :: rest -> first_minimum key x l.
Proof.
  revert x rest. induction l as [|a t IH]; intros x rest; simpl; [done|].
  destruct (sorted_by key t) as [|y r] eqn:Ht.
  - apply sorted_by_nil in Ht as ->. simpl. intros [= <- <-].
    exists [], []. split; [done|]. split; intros ? H; by apply elem_of_nil in H.
  - destruct (IH y r eq_refl) as (l1 & l2 & -> & Hl1 & Hl2).
    simpl. destruct (score_lt (key y) (key a)) eqn:Hya; intros [= <- <-].
    + exists (a :: l1), l2. split; [done|]. split; [|done].
      intros z [->|Hz]%elem_of_cons; auto.
    + exists [], (l1 ++ y :: l2). split; [done|].
      split; [intros ? H; by apply elem_of_nil in H|].
      intros z Hz. apply score_lt_false. apply score_lt_false in Hya.
      apply elem_of_app in Hz as [Hz|Hz].
      * apply Hl1, score_lt_spec in Hz. lia.
      * apply elem_of_cons in Hz as [->|Hz]; [lia|].
        apply Hl2, score_lt_false in Hz. lia.
Qed.

Lemma insert_by_elem (x y : A) (l : list A) :
  y ∈ insert_by key x l <-> y = x ∨ y ∈ l.
Proof.
  induction l as [|z t IH]; simpl.
  - rewrite elem_of_cons, elem_of_nil. tauto.
  - destruct (score_lt (key z) (key x)); rewrite !elem_of_cons; [rewrite IH|]; tauto.
Qed.

Lemma insert_by_ascending (x : A) (l : list A) :
  ascending key l -> ascending key (insert_by key x l).
Proof.
  induction 1 as [|z t Hs IH Hz]; simpl.
  - repeat constructor.
  - destruct (score_lt (key z) (key x)) eqn:Hzx.
    + constructor; [done|]. apply Forall_forall. intros y Hy.
      apply insert_by_elem in Hy as [->|Hy].
      * apply score_lt_false. apply score_lt_spec in Hzx. lia.
      * by eapply Forall_forall in Hz.
    + constructor; [by constructor|]. apply Forall_cons. split; [done|].
      apply Forall_forall. intros y Hy. eapply Forall_forall in Hz; [|done].
      apply score_lt_false. apply score_lt_false in Hzx, Hz. lia.
Qed.

Lemma sorted_by_ascending (l : list A) : ascending key (sorted_by key l).
Proof.
  induction l; simpl; [constructor|]. by apply insert_by_ascending.
Qed.

Lemma sorted_by_elem (y : A) (l : list A) : y ∈ sorted_by key l <-> y ∈ l.
Proof.
  induction l as [|a t IH]; simpl; [done|].
  rewrite insert_by_elem, elem_of_cons, IH. tauto.
Qed.

(** Filtering commutes with the stable sort. *)
Lemma filter_insert_by (p : A -> bool) (x : A) (l : list A) :
  ascending key l ->
  List.filter p (insert_by key x l)
  = if p x then insert_by key x (List.filter p l) else List.filter p l.
Proof.
  induction 1 as [|z t Hs IH Hz]; simpl.
  - by destruct (p x).
  - destruct (score_lt (key z) (key x)) eqn:Hzx; simpl.
    + rewrite IH. destruct (p z), (p x); simpl; try done. by rewrite Hzx.
    + destruct (p x) eqn:Hpx; [|done].
      destruct (p z); simpl; [by rewrite Hzx|].
      clear IH. induction t as [|w t IHt]; simpl; [done|].
      apply Forall_cons in Hz as [Hw Hz]. apply StronglySorted_inv in Hs as [Hs _].
      destruct (p w); simpl; [|by apply IHt].
      replace (score_lt (key w) (key x)) with false; [done|].
      symmetry. apply score_lt_false. apply score_lt_false in Hzx, Hw. lia.
Qed.

Lemma filter_sorted_by (p : A -> bool) (l : list A) :
  List.filter p (sorted_by key l) = sorted_by key (List.filter p l).
Proof.
  induction l as [|a t IH]; simpl; [done|].
  rewrite filter_insert_by by apply sorted_by_ascending.
  rewrite IH. by destruct (p a).
Qed.
End SortFacts.

Lemma filter_ext_on {A} (p q : A -> bool) (l : list A) :
  (∀ x, x ∈ l -> p x = q x) -> List.filter p l = List.filter q l.
Proof.
  induction l as [|a t IH]; intros H; simpl; [done|].
  rewrite (H a) by (apply elem_of_cons; auto).
  rewrite IH; [done|]. intros x Hx. apply H, elem_of_cons. auto.
Qed.

Lemma filter_elem {A} (p : A -> bool) (l : list A) (x : A) :
  x ∈ List.filter p l <-> x ∈ l ∧ p x = true.
Proof. rewrite !list_elem_of_In. apply filter_In. Qed.

Lemma enumerate_from_lookup {A} (l : list A) (k i : nat) (x : A) :
  (i, x) ∈ zip (seq k (length l)) l -> (k <= i)%nat ∧ l !! (i - k)%nat = Some x.
Proof.
  revert k. induction l as [|a t IH]; intros k; simpl.
  - by intros ?%elem_of_nil.
  - intros [[= -> ->]|H]%elem_of_cons.
    + by rewrite Nat.sub_diag.
    + apply IH in H as [Hk H]. split; [lia|].
      replace (i - k)%nat with (S (i - S k)) by lia. done.
Qed.

Lemma enumerate_lookup {A} (l : list A) (i : nat) (x : A) :
  (i, x) ∈ enumerate l -> l !! i = Some x.
Proof.
  intros H. apply enumerate_from_lookup in H as [_ H].
  by rewrite Nat.sub_0_r in H.
Qed.

Lemma enumerate_elem {A} (l : list A) (x : A) :
  x ∈ l -> ∃ i, (i, x) ∈ enumerate l.
Proof.
  unfold enumerate. generalize 0%nat.
  induction l as [|a t IH]; intros k; simpl.
  - by intros ?%elem_of_nil.
  - intros [->|H]%elem_of_cons.
    + exists k. apply elem_of_cons. auto.
    + destruct (IH (S k) H) as [i Hi]. exists i. apply elem_of_cons. auto.
Qed.

Section SelectorFacts.
Context {St : Type} (serper_search : backend St) (probe : pystr -> bool).

Lemma ordered_candidates_pool (results : list SearchResult) :
  ordered_candidates probe results = sorted_by score_of (candidate_pool probe results).
Proof.
  unfold ordered_candidates, candidate_pool. fold score_of.
  set (viable := List.filter _ (enumerate results)).
  rewrite filter_sorted_by.
  rewrite (filter_ext_on _ (fun r => probe (sr_url r.2)) viable).
  - destruct (List.filter _ viable) as [|a t] eqn:Hf; [done|].
    destruct (sorted_by score_of (a :: t)) eqn:Hs; [|done].
    by apply sorted_by_nil in Hs.
  - intros x [_ Hx]%filter_elem. unfold _is_downloadable.
    unfold is_viable in Hx. by rewrite Hx.
Qed.

Lemma candidate_pool_viable (results : list SearchResult) (x : nat * SearchResult) :
  x ∈ candidate_pool probe results -> x ∈ enumerate results ∧ is_viable x.2 = true.
Proof.
  unfold candidate_pool.
  destruct (List.filter (fun r => probe (sr_url r.2)) _) as [|a t] eqn:Hf.
  - by intros ?%filter_elem.
  - rewrite <- Hf. by intros [?%filter_elem _]%filter_elem.
Qed.

Lemma candidate_pool_nonempty (results : list SearchResult) (r : SearchResult) :
  r ∈ results -> is_viable r = true -> candidate_pool probe results ≠ [].
Proof.
  intros Hr Hv. unfold candidate_pool.
  destruct (List.filter (fun r => probe (sr_url r.2)) _) as [|a t] eqn:Hf; [|done].
  destruct (enumerate_elem _ _ Hr) as [i Hi].
  intros Hnil. assert (H : (i, r) ∈ List.filter (fun r => is_viable r.2) (enumerate results))
    by (apply filter_elem; auto).
  rewrite Hnil in H. by apply elem_of_nil in H.
Qed.

(** The main path of the selector: some candidate is viable. *)
Lemma select_main_path (spec : QuerySpec) (results : list SearchResult)
    (endpoint market language : pystr) (max_supporting : nat) (st : St)
    (r : SearchResult) :
  r ∈ results -> is_viable r = true ->
  ∃ i prim rest,
    sorted_by score_of (candidate_pool probe results) = (i, prim) :: rest
    ∧ select_ground_truth_bundle serper_search probe spec results endpoint market
        language max_supporting st
      = (Ok {| primary := prim;
               supporting := supporting_loop i max_supporting 0
                               (enumerate results) |}, st).
Proof.
  intros Hr Hv. unfold select_ground_truth_bundle.
  destruct results as [|r0 rs]; [by apply elem_of_nil in Hr|].
  rewrite ordered_candidates_pool.
  destruct (sorted_by score_of (candidate_pool probe (r0 :: rs))) as [|[i prim] rest] eqn:Hs.
  - apply sorted_by_nil in Hs. by apply (candidate_pool_nonempty _ r) in Hs.
  - by exists i, prim, rest.
Qed.
End SelectorFacts.

Lemma _primary_score_rank (u : pystr) :
  u ≠ [] -> _primary_score u = (document_rank u, length u).
Proof.
  intros Hu. destruct u as [|c t]; [done|].
  unfold _primary_score, document_rank, is_pdf_url, is_source_control_url,
    is_model_hub_url.
  assert (Hlen : length (Py.lower (c :: t)) = length (c :: t))
    by apply length_map.
  rewrite Hlen.
  destruct (_ || _); [done|]. destruct (_ || _ || _); [done|].
  by destruct (Py.contains _ _).
Qed.



(** ** Supporting sources *)

Lemma enumerate_values {A} (l : list A) : map snd (enumerate l) = l.
Proof.
  unfold enumerate. generalize 0%nat.
  induction l as [|a t IH]; intros k; simpl; [done|]. by rewrite IH.
Qed.

Lemma supporting_loop_take (i max_supporting count : nat)
    (l : list (nat * SearchResult)) :
  (count < max_supporting)%nat ->
  supporting_loop i max_supporting count l
  = take (max_supporting - count)
         (map snd (List.filter (fun jr => negb (bool_decide (jr.1 = i)) && is_viable jr.2) l)).
Proof.
  revert count. induction l as [|[j r] t IH]; intros count Hc; simpl.
  - by rewrite take_nil.
  - unfold is_viable at 1. case_bool_decide; simpl; [by apply IH|].
    destruct (_is_viable_ground_truth (sr_url r)); simpl; [|by apply IH].
    destruct (max_supporting - count)%nat as [|n] eqn:Hn; [lia|]. simpl. f_equal.
    destruct (max_supporting <=? S count)%nat eqn:Hle.
    + apply Nat.leb_le in Hle. replace n with 0%nat by lia. by rewrite take_0.
    + apply Nat.leb_gt in Hle. rewrite IH by lia. f_equal. lia.
Qed.

Lemma filter_by_position (i : nat) (prim : SearchResult)
    (l : list (nat * SearchResult)) :
  (∀ j x, (j, x) ∈ l -> j = i <-> x = prim) ->
  map snd (List.filter (fun jr => negb (bool_decide (jr.1 = i)) && is_viable jr.2) l)
  = List.filter (fun x => is_viable x && negb (bool_decide (x = prim))) (map snd l).
Proof.
  induction l as [|[j x] t IH]; intros H; [done|].
  assert (IH' := IH (fun j' x' Hin => H j' x' (proj2 (elem_of_cons _ _ _) (or_intror Hin)))).
  assert (Hjx : j = i <-> x = prim) by (apply H, elem_of_cons; auto).
  cbn [List.filter map fst snd].
  do 2 case_bool_decide; try tauto; cbn [negb andb].
  - by rewrite andb_false_r.
  - rewrite andb_true_r. destruct (is_viable x); cbn [map]; by rewrite IH'.
Qed.

Lemma NoDup_map_inj {A B} (f : A -> B) (l : list A) (x y : A) :
  NoDup (map f l) -> x ∈ l -> y ∈ l -> f x = f y -> x = y.
Proof.
  induction l as [|a t IH]; simpl; [by intros _ ?%elem_of_nil|].
  intros [Ha Ht]%NoDup_cons [->|Hx]%elem_of_cons [->|Hy]%elem_of_cons E; auto.
  - exfalso. apply Ha. rewrite E. apply list_elem_of_In, in_map.
    by apply list_elem_of_In.
  - exfalso. apply Ha. rewrite <- E. apply list_elem_of_In, in_map.
    by apply list_elem_of_In.
Qed.




(** ** Evidence search *)

Section SetFacts.
Context `{Countable K}.
Implicit Types A B D : gset K.

Lemma union_absorb_singleton A D (k : K) : k ∈ D -> {[k]} ∪ A ∪ D = A ∪ D.
Proof. set_solver. Qed.

Lemma union_shift_singleton A D (k : K) : A ∪ ({[k]} ∪ D) = {[k]} ∪ A ∪ D.
Proof. set_solver. Qed.
End SetFacts.

Lemma keys_of_cons (r : SearchResult) (l : list SearchResult) :
  keys_of (r :: l) = {[result_key r]} ∪ keys_of l.
Proof. reflexivity. Qed.

Lemma keys_of_app (l1 l2 : list SearchResult) :
  keys_of (l1 ++ l2) = keys_of l1 ∪ keys_of l2.
Proof. unfold keys_of. by rewrite map_app, list_to_set_app_L. Qed.

Lemma dedupe_by_key_app (seen : gset pystr) (l1 l2 : list SearchResult) :
  dedupe_by_key seen (l1 ++ l2)
  = dedupe_by_key seen l1 ++ dedupe_by_key (keys_of l1 ∪ seen) l2.
Proof.
  revert seen. induction l1 as [|r rest IH]; intros seen; cbn [app dedupe_by_key].
  - change (keys_of []) with (∅ : gset pystr). by rewrite union_empty_l_L.
  - rewrite keys_of_cons. case_bool_decide as Hk.
    + by rewrite IH, union_absorb_singleton.
    + cbn [app]. by rewrite IH, union_shift_singleton.
Qed.

Lemma dedupe_by_key_keys (seen : gset pystr) (l : list SearchResult) :
  keys_of (dedupe_by_key seen l) ∪ seen = keys_of l ∪ seen.
Proof.
  revert seen. induction l as [|r rest IH]; intros seen; cbn [dedupe_by_key]; [done|].
  rewrite keys_of_cons. case_bool_decide as Hk.
  - by rewrite IH, union_absorb_singleton.
  - by rewrite keys_of_cons, <- !union_shift_singleton, IH.
Qed.

Lemma dedupe_by_key_sublist (seen : gset pystr) (l : list SearchResult) :
  dedupe_by_key seen l `sublist_of` l.
Proof.
  revert seen. induction l as [|r rest IH]; intros seen; simpl; [done|].
  case_bool_decide; [by apply sublist_cons|by apply sublist_skip].
Qed.

Lemma dedupe_by_key_fresh (seen : gset pystr) (l : list SearchResult) (r : SearchResult) :
  r ∈ dedupe_by_key seen l -> result_key r ∉ seen.
Proof.
  revert seen. induction l as [|a rest IH]; intros seen; simpl.
  - by intros ?%elem_of_nil.
  - case_bool_decide as Hk; [by apply IH|].
    intros [->|Hr]%elem_of_cons; [done|]. apply IH in Hr.
    by apply not_elem_of_union in Hr as [_ Hr].
Qed.

Lemma dedupe_by_key_NoDup (seen : gset pystr) (l : list SearchResult) :
  NoDup (map result_key (dedupe_by_key seen l)).
Proof.
  revert seen. induction l as [|a rest IH]; intros seen; simpl; [constructor|].
  case_bool_decide as Hk; [by apply IH|]. simpl. apply NoDup_cons. split; [|by apply IH].
  intros Hin. apply list_elem_of_In, in_map_iff in Hin as (r & Hkey & Hr).
  apply list_elem_of_In, dedupe_by_key_fresh in Hr.
  apply Hr, elem_of_union. left. by apply elem_of_singleton.
Qed.

Lemma dedupe_by_key_nil (l : list SearchResult) :
  dedupe_by_key ∅ l = [] <-> l = [].
Proof.
  split; [|by intros ->]. destruct l as [|r rest]; [done|]. simpl.
  case_bool_decide as Hk; [by apply elem_of_empty in Hk|done].
Qed.

Lemma aggregate_spec (num_results : Z) (results aggregated : list SearchResult)
    (seen : gset pystr) :
  (Z.of_nat (length aggregated) < num_results)%Z ->
  (aggregate num_results results aggregated seen).1
  = take (Z.to_nat num_results) (aggregated ++ dedupe_by_key seen results)
  ∧ ((Z.of_nat (length (aggregated ++ dedupe_by_key seen results)) < num_results)%Z ->
     (aggregate num_results results aggregated seen).2
     = keys_of (dedupe_by_key seen results) ∪ seen).
Proof.
  revert aggregated seen. induction results as [|r rest IH]; intros agg seen Hlen;
    cbn [aggregate dedupe_by_key].
  - rewrite app_nil_r. split; [rewrite take_ge; [done|lia]|].
    intros _. change (keys_of []) with (∅ : gset pystr). by rewrite union_empty_l_L.
  - case_bool_decide as Hk; [by apply IH|]. cbv zeta.
    destruct (num_results <=? Z.of_nat (length (agg ++ [r])))%Z eqn:Hfull.
    + apply Z.leb_le in Hfull. rewrite length_app in Hfull. simpl in Hfull. split.
      * cbn [fst].
        replace (agg ++ r :: dedupe_by_key ({[result_key r]} ∪ seen) rest)
          with ((agg ++ [r]) ++ dedupe_by_key ({[result_key r]} ∪ seen) rest)
          by (by rewrite <- app_assoc).
        rewrite take_app_length'; [done|]. rewrite length_app. simpl. lia.
      * rewrite length_app. simpl. lia.
    + apply Z.leb_gt in Hfull.
      destruct (IH (agg ++ [r]) ({[result_key r]} ∪ seen) Hfull) as [H1 H2].
      rewrite <- app_assoc in H1, H2. simpl in H1, H2. split; [done|].
      intros Hlt. rewrite (H2 Hlt). by rewrite keys_of_cons, union_shift_singleton.
Qed.

Lemma discovered_snoc (calls : list (pystr * response)) (c : pystr * response) :
  discovered (calls ++ [c]) = discovered calls ++ hits_of c.2.
Proof.
  unfold discovered. rewrite map_app, concat_app. simpl. by rewrite app_nil_r.
Qed.

Section RunSearchFacts.
Context {St : Type} (serper_search : backend St).

Lemma attempts_loop_discovered (attempts : list nat) (variants : list pystr)
    (agent : Agent) (language : pystr) (remaining : Z) (last_error : option pystr)
    (st : St) (calls : list (pystr * response))
    (found : option (list SearchResult)) (err : option pystr)
    (st' : St) (calls' : list (pystr * response)) :
  attempts_loop (recording serper_search) attempts variants agent language remaining
    last_error (st, calls) = (found, err, (st', calls')) ->
  discovered calls' = discovered calls ++ default [] found
  ∧ attempts_loop serper_search attempts variants agent language remaining
      last_error st = (found, err, st').
Proof.
  revert last_error st calls.
  induction attempts as [|a later IH]; intros last_error st calls; simpl.
  - intros [= <- <- <- <-]. by rewrite app_nil_r.
  - destruct (serper_search _ _ _ _ _ st) as [[hits|msg] st1] eqn:Hcall; simpl.
    + intros [= <- <- <- <-]. by rewrite discovered_snoc.
    + intros H. apply IH in H as [H1 H2].
      rewrite discovered_snoc, app_nil_r in H1. done.
Qed.

Lemma search_loop_discovered (agent : Agent) (language : pystr) (num_results : Z)
    (queries : list pystr) (aggregated : list SearchResult) (seen : gset pystr)
    (errors : list pystr) (st : St) (calls : list (pystr * response))
    (aggregated' : list SearchResult) (errors' : list pystr)
    (st' : St) (calls' : list (pystr * response)) :
  (Z.of_nat (length aggregated) < num_results)%Z ->
  aggregated = dedupe_by_key ∅ (discovered calls) ->
  seen = keys_of aggregated ->
  search_loop (recording serper_search) agent language num_results queries aggregated
    seen errors (st, calls) = (aggregated', errors', (st', calls')) ->
  aggregated' = take (Z.to_nat num_results) (dedupe_by_key ∅ (discovered calls'))
  ∧ search_loop serper_search agent language num_results queries aggregated seen
      errors st = (aggregated', errors', st').
Proof.
  revert aggregated seen errors st calls.
  induction queries as [|q later IH]; intros agg seen errors st calls Hlen Hagg Hseen;
    cbn [search_loop].
  - intros [= <- <- <- <-]. split; [|done]. rewrite <- Hagg, take_ge; [done|lia].
  - destruct (attempts_loop (recording serper_search) _ _ _ _ _ _ _)
      as [[found err] [st1 calls1]] eqn:Hatt.
    apply attempts_loop_discovered in Hatt as [Hdisc Hplain]. rewrite Hplain.
    destruct found as [results|]; simpl in Hdisc.
    + destruct (aggregate_spec num_results results agg seen Hlen) as [Hfst Hsnd].
      destruct (aggregate num_results results agg seen) as [agg1 seen1].
      simpl in Hfst, Hsnd.
      assert (Hfull : agg ++ dedupe_by_key seen results
                      = dedupe_by_key ∅ (discovered calls1)).
      { rewrite Hdisc, dedupe_by_key_app, <- Hagg. do 2 f_equal.
        rewrite Hseen, Hagg. by rewrite <- (dedupe_by_key_keys ∅), !union_empty_r_L. }
      rewrite Hfull in Hfst, Hsnd.
      destruct (num_results <=? Z.of_nat (length agg1))%Z eqn:Hstop.
      * intros [= <- <- <- <-]. done.
      * apply Z.leb_gt in Hstop.
        assert (Hall : agg1 = dedupe_by_key ∅ (discovered calls1)).
        { rewrite Hfst. apply take_ge. rewrite Hfst, length_take in Hstop. lia. }
        apply IH; [done|done|].
        rewrite Hsnd by (by rewrite <- Hall).
        rewrite Hall, <- Hfull, keys_of_app, Hseen. apply union_comm_L.
    + rewrite app_nil_r in Hdisc. intros H.
      apply IH in H; [|done|by rewrite Hdisc|done]. done.
Qed.

(** Once the aggregate has reached [num_results], no further base query is
    tried: the remaining queries change neither the aggregate nor the
    backend's state. *)
Lemma search_loop_stops (agent : Agent) (language : pystr) (num_results : Z)
    (qs1 qs2 : list pystr) (aggregated : list SearchResult) (seen : gset pystr)
    (errors : list pystr) (st : St)
    (aggregated1 : list SearchResult) (errors1 : list pystr) (st1 : St) :
  (Z.of_nat (length aggregated) < num_results)%Z ->
  search_loop serper_search agent language num_results qs1 aggregated seen errors st
    = (aggregated1, errors1, st1) ->
  (num_results <= Z.of_nat (length aggregated1))%Z ->
  search_loop serper_search agent language num_results (qs1 ++ qs2) aggregated seen
    errors st = (aggregated1, errors1, st1).
Proof.
  revert aggregated seen errors st.
  induction qs1 as [|q later IH]; intros agg seen errors st Hlen;
    cbn [search_loop app].
  - intros [= <- <- <-]. lia.
  - destruct (attempts_loop serper_search _ _ _ _ _ _ _) as [[found err] st'].
    destruct found as [results|]; [|by apply IH].
    destruct (aggregate num_results results agg seen) as [agg1 seen1].
    destruct (num_results <=? Z.of_nat (length agg1))%Z eqn:Hstop; [done|].
    apply Z.leb_gt in Hstop. by apply IH.
Qed.
End RunSearchFacts.

Lemma discovered_nil (calls : list (pystr * response)) :
  discovered calls = [] <-> Forall (fun c => hits_of c.2 = []) calls.
Proof.
  unfold discovered. induction calls as [|c rest IH]; simpl.
  - split; [constructor|done].
  - rewrite Forall_cons, <- IH. split.
    + by intros [-> ->]%app_eq_nil.
    + by intros [-> ->].
Qed.



(** ** The batch *)

Section BatchFacts.
Context {W : Type}.
Context (run_search : QuerySpec -> W -> result (list SearchResult) * W).
Context (build_query : QuerySpec -> list SearchResult -> W -> result dict * W).
Context (save_query_package : dict -> W -> result pystr * W).
Context (agent : Agent) (package_dir : bool).

(** The steps of a unit of work, run one after the other, are
    [_process_spec]: four steps always finish it. *)
Lemma run_worker_process_spec (spec : QuerySpec) (s : shared) :
  run_worker run_search build_query save_query_package agent package_dir 4
    (Queued spec) s
  = (Finished (_process_spec run_search build_query save_query_package agent
                 package_dir spec s).1,
     (_process_spec run_search build_query save_query_package agent
        package_dir spec s).2).
Proof.
  destruct s as [cache w]. unfold _process_spec. cbn [run_worker worker_step].
  destruct (cache !! cache_key agent spec) as [found|] eqn:Hc.
  - cbn [run_worker worker_step].
    destruct (generate_and_package _ _ _ _ _ _) as [out w'].
    cbn [run_worker worker_step]. done.
  - cbn [run_worker worker_step].
    destruct (run_search spec w) as [[found|e] w']; cbn [run_worker worker_step].
    + destruct (generate_and_package _ _ _ _ _ _) as [out w''].
      cbn [run_worker worker_step]. done.
    + destruct e; cbn [run_worker worker_step]; done.
Qed.
End BatchFacts.

(** The fan-in of the parallel branch keeps exactly the truthy payloads, in
    the order of the input, whatever the order of completion; an outcome
    that is an exception is left out. *)
Lemma fan_in_lookup (outcomes : list (result (option dict))) (completed : list nat)
    (results : list (option dict)) (i : nat) :
  fan_in outcomes completed results !! i
  = match outcomes !! i ≫= kept with
    | Some p => if bool_decide (i ∈ completed ∧ (i < length results)%nat)
                then Some (Some p) else results !! i
    | None => results !! i
    end.
Proof.
  revert results. induction completed as [|idx later IH]; intros results; cbn [fan_in].
  - destruct (outcomes !! i ≫= kept); [|done].
    case_bool_decide as H; [|done]. destruct H as [H _]. by apply elem_of_nil in H.
  - assert (Hgen : ∀ results', length results' = length results ->
              (∀ j, j ≠ idx -> results' !! j = results !! j) ->
              (outcomes !! idx ≫= kept = None -> results' = results) ->
              (∀ p, outcomes !! idx ≫= kept = Some p ->
                    (idx < length results)%nat -> results' !! idx = Some (Some p)) ->
              ((length results <= idx)%nat -> results' = results) ->
              fan_in outcomes later results' !! i
              = match outcomes !! i ≫= kept with
                | Some p => if bool_decide (i ∈ idx :: later ∧ (i < length results)%nat)
                            then Some (Some p) else results !! i
                | None => results !! i
                end).
    { intros results' Hlen Hother Hnone Hsome Hout. rewrite IH, Hlen.
      destruct (outcomes !! i ≫= kept) as [p|] eqn:Hi.
      - destruct (decide (i = idx)) as [->|Hne].
        + destruct (decide (idx < length results)%nat) as [Hlt|Hge].
          * rewrite (Hsome p Hi Hlt).
            rewrite (bool_decide_eq_true_2 (idx ∈ idx :: later ∧ _));
              [by case_bool_decide|].
            split; [apply elem_of_cons; auto|done].
          * rewrite Hout by lia.
            rewrite !bool_decide_eq_false_2; [done|intros [_ ?]; lia|intros [_ ?]; lia].
        + rewrite (Hother i Hne).
          destruct (decide (i ∈ later ∧ (i < length results)%nat)) as [Hin|Hin].
          * rewrite !bool_decide_eq_true_2; [done| |done].
            destruct Hin. split; [apply elem_of_cons; auto|done].
          * rewrite !bool_decide_eq_false_2; [done| |done].
            intros [[?|?]%elem_of_cons ?]; tauto.
      - destruct (decide (i = idx)) as [->|Hne]; [by rewrite Hnone|by rewrite Hother]. }
    destruct (outcomes !! idx) as [[[payload|]|e]|] eqn:Hidx; cbn [mbind option_bind kept] in Hgen.
    + destruct (truthy (JDict payload)) eqn:Ht.
      * apply Hgen.
        -- apply length_insert.
        -- intros j Hj. by apply list_lookup_insert_ne.
        -- done.
        -- intros p [= <-] Hlt. by apply list_lookup_insert_eq.
        -- intros Hge. by apply list_insert_ge.
      * by apply Hgen.
    + by apply Hgen.
    + by apply Hgen.
    + by apply Hgen.
Qed.

Lemma fan_in_length (outcomes : list (result (option dict))) (completed : list nat)
    (results : list (option dict)) :
  length (fan_in outcomes completed results) = length results.
Proof.
  revert results. induction completed as [|idx later IH]; intros results; cbn [fan_in];
    [done|].
  destruct (outcomes !! idx) as [[[payload|]|e]|]; try apply IH.
  destruct (truthy (JDict payload)); rewrite IH; [apply length_insert|done].
Qed.

Lemma fan_in_isolates (outcomes : list (result (option dict))) (completed : list nat) :
  completed ≡ₚ seq 0 (length outcomes) ->
  collect (fan_in outcomes completed (replicate (length outcomes) None))
  = omap kept outcomes.
Proof.
  intros Hperm. unfold collect.
  assert (Hmap : fan_in outcomes completed (replicate (length outcomes) None)
                 = map kept outcomes).
  { apply list_eq. intros i. rewrite fan_in_lookup, length_replicate.
    change (map kept outcomes) with (kept <$> outcomes). rewrite list_lookup_fmap.
    destruct (outcomes !! i) as [out|] eqn:Hi; simpl.
    - assert (Hlt : (i < length outcomes)%nat) by (by eapply lookup_lt_Some).
      destruct (kept out) as [p|].
      + rewrite bool_decide_eq_true_2; [done|]. split; [|done].
        rewrite Hperm. apply elem_of_seq. lia.
      + rewrite lookup_replicate_2; done.
    - apply lookup_ge_None in Hi. apply lookup_ge_None. by rewrite length_replicate. }
  rewrite Hmap. clear. induction outcomes as [|o rest IH]; [done|].
  cbn [map omap list_omap]. rewrite IH. by destruct (kept o).
Qed.

(** C4 (code defect): a batch of two specifications, run with the default
    worker bound (1, the sequential branch), in which the packaging of the
    first payload raises an exception that is neither a search nor a
    generation error.  The unit of work of the second specification
    succeeds on its own, and the fan-in of the parallel branch would return
    its payload; the sequential branch has no handler, and the call ends
    with the exception instead of returning. *)
Theorem sequential_batch_aborts :
  resolve_workers (fun _ => None) None None = 1%Z
  ∧ generate_batch_returns example_search example_build example_save example_agent
      true [spec_two_queries; spec_q2] 1 tt (Raise packaging_error)
  ∧ (∀ out, generate_batch_returns example_search example_build example_save
              example_agent true [spec_two_queries; spec_q2] 1 tt out ->
            out = Raise packaging_error)
  ∧ (_process_spec example_search example_build example_save example_agent true
       spec_two_queries (∅, tt)).1 = Raise packaging_error
  ∧ (_process_spec example_search example_build example_save example_agent true
       spec_q2 (∅, tt)).1 = Ok (Some payload_q2)
  ∧ collect (fan_in [Raise packaging_error; Ok (Some payload_q2)] [1; 0]%nat
               (replicate 2 None)) = [payload_q2].
Proof.
  assert (Hseq : (sequential_loop example_search example_build example_save
                    example_agent true [spec_two_queries; spec_q2] [] (∅, tt)).1
                 = Raise packaging_error) by (vm_compute; reflexivity).
  split; [reflexivity|]. split; [|split; [|split; [|split]]].
  - destruct (sequential_loop example_search example_build example_save
                example_agent true [spec_two_queries; spec_q2] [] (∅, tt))
      as [out s'] eqn:Hloop.
    simpl in Hseq. subst out. eapply returns_sequential; [by left|exact Hloop].
  - intros out Hret. inversion Hret as [out' s' _ Hloop|]; subst; [|done].
    rewrite Hloop in Hseq. exact Hseq.
  - vm_compute; reflexivity.
  - vm_compute; reflexivity.
  - vm_compute; reflexivity.
Qed.

Lemma invocations_snoc (k : cache_key_t) (log : search_log) (e : cache_key_t * bool) :
  invocations k (log ++ [e])
  = (invocations k log + if bool_decide (e.1 = k) then 1 else 0)%nat.
Proof.
  unfold invocations. rewrite List.filter_app, length_app. simpl.
  by destruct (bool_decide (e.1 = k)).
Qed.

Lemma successes_snoc (k : cache_key_t) (log : search_log) (e : cache_key_t * bool) :
  successes k (log ++ [e])
  = (successes k log + if bool_decide (e = (k, true)) then 1 else 0)%nat.
Proof.
  unfold successes. rewrite List.filter_app, length_app. simpl.
  by destruct (bool_decide (e = (k, true))).
Qed.

Lemma past_requests_le (agent : Agent) (k : cache_key_t) (specs : list QuerySpec)
    (ws : list worker) :
  (past_requests agent k specs ws <= requests agent k specs)%nat.
Proof.
  unfold requests. revert ws. induction specs as [|sp specs IH]; intros [|wk ws]; simpl;
    try lia.
  specialize (IH ws). destruct (bool_decide (cache_key agent sp = k)); simpl; [|lia].
  destruct (past_search wk); lia.
Qed.

Lemma past_requests_insert (agent : Agent) (k : cache_key_t) (specs : list QuerySpec)
    (ws : list worker) (i : nat) (sp : QuerySpec) (wk wk' : worker) :
  specs !! i = Some sp -> ws !! i = Some wk ->
  (past_requests agent k specs (<[i := wk']> ws)
   + (if bool_decide (cache_key agent sp = k) && past_search wk then 1 else 0)
   = past_requests agent k specs ws
     + (if bool_decide (cache_key agent sp = k) && past_search wk' then 1 else 0))%nat.
Proof.
  revert ws i. induction specs as [|sp0 specs IH]; intros [|wk0 ws] [|i]; simpl; try done.
  - intros [= ->] [= ->]. lia.
  - intros Hs Hw. specialize (IH ws i Hs Hw). lia.
Qed.

Section CacheFacts.
Context {W : Type}.
Context (run_search : QuerySpec -> W -> result (list SearchResult) * W).
Context (build_query : QuerySpec -> list SearchResult -> W -> result dict * W).
Context (save_query_package : dict -> W -> result pystr * W).
Context (agent : Agent) (package_dir : bool).

Let cs := counting agent run_search.
Let cb := keeping_log2 build_query.
Let sv := keeping_log save_query_package.

Lemma build_attempts_log (n : nat) (spec : QuerySpec) (rs : list SearchResult)
    (w : W) (log : search_log) :
  (build_attempts cb n spec rs (w, log)).2.2 = log.
Proof using Type.
  revert w. induction n as [|n IH]; intros w; simpl; [done|].
  unfold cb at 1, keeping_log2. destruct (build_query spec rs w) as [[p|e] w']; [done|].
  destruct e; simpl; try done; apply IH.
Qed.

Lemma generate_and_package_log (spec : QuerySpec) (rs : list SearchResult)
    (w : W) (log : search_log) :
  (generate_and_package cb sv package_dir spec rs (w, log)).2.2 = log.
Proof using Type.
  unfold generate_and_package.
  pose proof (build_attempts_log 3 spec rs w log) as Hb.
  destruct (build_attempts cb 3 spec rs (w, log)) as [[[p|]|e] [w' log']];
    simpl in Hb; subst log'; try done.
  destruct package_dir; [|done]. unfold sv, keeping_log.
  by destruct (save_query_package p w') as [[path|e] w''].
Qed.

Lemma process_spec_cache_agrees (spec : QuerySpec)
    (cache cache' : gmap cache_key_t (list SearchResult)) (w w' : W)
    (log log' : search_log) (out : result (option dict)) :
  cache_agrees cache log ->
  _process_spec cs cb sv agent package_dir spec (cache, (w, log))
    = (out, (cache', (w', log'))) ->
  cache_agrees cache' log'.
Proof using Type.
  intros Hinv. unfold _process_spec.
  destruct (cache !! cache_key agent spec) as [found|] eqn:Hc.
  - pose proof (generate_and_package_log spec found w log) as Hlog.
    destruct (generate_and_package cb sv package_dir spec found (w, log))
      as [out1 [w1 log1]]. cbn [fst snd] in Hlog. subst log1.
    by intros [= <- <- <- <-].
  - unfold cs, counting. destruct (run_search spec w) as [[found|e] w1] eqn:Hrun.
    + pose proof (generate_and_package_log spec found w1
                    (log ++ [(cache_key agent spec, true)])) as Hlog.
      cbn [is_ok] in *.
      destruct (generate_and_package cb sv package_dir spec found _)
        as [out2 [w2 log2]]. cbn [fst snd] in Hlog. subst log2.
      intros [= <- <- <- <-] k. rewrite successes_snoc.
      destruct (Hinv k) as [Hle Hnone]. case_bool_decide as Hk.
      * injection Hk as Hk. subst k. rewrite (Hnone Hc), lookup_insert_eq.
        split; [lia|done].
      * rewrite lookup_insert_ne by congruence.
        split; [lia|intros ?; rewrite Hnone; done].
    + assert (Hfail : cache_agrees cache (log ++ [(cache_key agent spec, false)])).
      { intros k. rewrite successes_snoc, bool_decide_eq_false_2 by congruence.
        rewrite Nat.add_0_r. apply Hinv. }
      destruct e; by intros [= <- <- <- <-].
Qed.

Lemma sequential_loop_cache_agrees (specs : list QuerySpec) (outputs : list dict)
    (cache cache' : gmap cache_key_t (list SearchResult)) (w w' : W)
    (log log' : search_log) (out : result (list dict)) :
  cache_agrees cache log ->
  sequential_loop cs cb sv agent package_dir specs outputs (cache, (w, log))
    = (out, (cache', (w', log'))) ->
  cache_agrees cache' log'.
Proof using Type.
  revert outputs cache w log.
  induction specs as [|spec later IH]; intros outputs cache w log Hinv;
    cbn [sequential_loop]; [by intros [= <- <- <- <-]|].
  destruct (_process_spec cs cb sv agent package_dir spec (cache, (w, log)))
    as [[payload|e] [cache1 [w1 log1]]] eqn:Hstep;
    pose proof (process_spec_cache_agrees _ _ _ _ _ _ _ _ Hinv Hstep) as Hinv1.
  - by apply IH.
  - by intros [= <- <- <- <-].
Qed.

Lemma pool_step_agrees (max_workers : nat) (specs : list QuerySpec)
    (p p' : pool (W := W * search_log)) :
  pool_agrees agent specs p ->
  pool_step cs cb sv agent package_dir max_workers p p' ->
  pool_agrees agent specs p'.
Proof using Type.
  intros [Hof Hinv] Hstep. destruct Hstep as [ws [cache [w log]] i wk wk' s' Hi _ Hws].
  cbn [workers pool_shared] in *.
  destruct (Forall2_lookup_r _ _ _ _ _ Hof Hi) as (sp & Hsp & Hwk).
  assert (Hins : ∀ k, (past_requests agent k specs (<[i := wk']> ws)
                 + (if bool_decide (cache_key agent sp = k) && past_search wk then 1 else 0)
                 = past_requests agent k specs ws
                   + (if bool_decide (cache_key agent sp = k) && past_search wk' then 1 else 0))%nat)
    by (intros k; by apply past_requests_insert).
  assert (Hof' : worker_of sp wk' -> Forall2 worker_of specs (<[i := wk']> ws)).
  { intros Hwk'. rewrite <- (list_insert_id specs i sp Hsp). by apply Forall2_insert. }
  destruct wk as [spec|spec|spec rs|spec rs|out]; cbn [worker_step worker_of] in *;
    try subst spec.
  - destruct (cache !! cache_key agent sp); injection Hws as <- <-;
      (split; [by apply Hof'|]); intros k; specialize (Hinv k); specialize (Hins k);
      cbn [workers pool_shared fst snd past_search andb] in *; rewrite ?andb_false_r, ?andb_true_r in Hins;
      destruct (bool_decide (cache_key agent sp = k)); lia.
  - unfold cs at 1, counting in Hws.
    destruct (run_search sp w) as [[found|e] w'].
    + injection Hws as <- <-. split; [by apply Hof'|]. intros k.
      specialize (Hinv k). specialize (Hins k). cbn [workers pool_shared fst snd past_search andb] in *.
      rewrite invocations_snoc. cbn [fst snd].
      rewrite ?andb_false_r, ?andb_true_r in Hins.
      destruct (bool_decide (cache_key agent sp = k)); lia.
    + assert (Hws' : wk' = Finished (match e with SearchError _ => Ok None | _ => Raise e end)
                     ∧ s' = (cache, (w', log ++ [(cache_key agent sp, false)])))
        by (destruct e; injection Hws as <- <-; done).
      destruct Hws' as [-> ->]. split; [by apply Hof'|]. intros k.
      specialize (Hinv k). specialize (Hins k). cbn [workers pool_shared fst snd past_search andb] in *.
      rewrite invocations_snoc. cbn [fst snd].
      rewrite ?andb_false_r, ?andb_true_r in Hins.
      destruct (bool_decide (cache_key agent sp = k)); lia.
  - injection Hws as <- <-. split; [by apply Hof'|]. intros k.
    specialize (Hinv k). specialize (Hins k). cbn [workers pool_shared fst snd past_search andb] in *. lia.
  - pose proof (generate_and_package_log sp rs w log) as Hlog.
    destruct (generate_and_package cb sv package_dir sp rs (w, log)) as [out [w' log']].
    cbn [fst snd] in Hlog. subst log'. injection Hws as <- <-.
    split; [by apply Hof'|]. intros k.
    specialize (Hinv k). specialize (Hins k). cbn [workers pool_shared fst snd past_search andb] in *. lia.
  - injection Hws as <- <-. split; [by apply Hof'|]. intros k.
    specialize (Hinv k). specialize (Hins k). cbn [workers pool_shared fst snd past_search andb] in *. lia.
Qed.

Lemma pool_init_agrees (specs : list QuerySpec) (w : W) :
  pool_agrees agent specs (pool_init specs (w, [])).
Proof using Type.
  split; cbn [pool_init workers pool_shared].
  - induction specs; constructor; done.
  - intros k. unfold invocations. simpl. lia.
Qed.

Lemma pool_run_agrees (max_workers : nat) (specs : list QuerySpec)
    (p p' : pool (W := W * search_log)) :
  rtc (pool_step cs cb sv agent package_dir max_workers) p p' ->
  pool_agrees agent specs p -> pool_agrees agent specs p'.
Proof using Type.
  induction 1 as [|p q r Hstep _ IH]; [done|].
  intros Hp. apply IH. by eapply pool_step_agrees.
Qed.
End CacheFacts.

(** C3, as stated, fails.  Two units of work for the same cache key on a
    pool of two threads: both look the key up (under the lock) before either
    has populated it, both miss, and both invoke the search. *)
Lemma cache_race_double_search :
  cache_key example_agent spec_two_queries = cache_key example_agent spec_q2
  ∧ ∃ final,
      rtc (pool_step (counting example_agent example_search)
             (keeping_log2 example_build) (keeping_log example_save)
             example_agent true 2)
          (pool_init [spec_two_queries; spec_q2] (tt, [])) final
      ∧ invocations (cache_key example_agent spec_q2) (pool_shared final).2.2 = 2%nat.
Proof.
  split; [reflexivity|]. eexists. split.
  - eapply rtc_l.
    { eapply (pool_step_at _ _ _ _ _ _ _ _ 0%nat); [reflexivity| |reflexivity].
      split; [constructor|simpl; lia]. }
    eapply rtc_l.
    { eapply (pool_step_at _ _ _ _ _ _ _ _ 1%nat); [reflexivity| |reflexivity].
      split; [repeat constructor|simpl; lia]. }
    eapply rtc_l.
    { eapply (pool_step_at _ _ _ _ _ _ _ _ 0%nat); [reflexivity|exact I|reflexivity]. }
    eapply rtc_l.
    { eapply (pool_step_at _ _ _ _ _ _ _ _ 1%nat); [reflexivity|exact I|reflexivity]. }
    apply rtc_refl.
  - vm_compute. reflexivity.
Qed.

(** C3 (amended): a unit of work invokes the search only when its own
    look-up missed, and a look-up that finds the key skips the search.  When
    the units of work run one after the other, no key has more than one
    successful search.  When they interleave, the look-up and the populate
    are separate sections under the lock, and the invocations for a key are
    bounded by the number of units of work that ask for it. *)
Theorem search_cache_bounds {W : Type}
    (run_search : QuerySpec -> W -> result (list SearchResult) * W)
    (build_query : QuerySpec -> list SearchResult -> W -> result dict * W)
    (save_query_package : dict -> W -> result pystr * W)
    (agent : Agent) (package_dir : bool) :
  (∀ spec cache w log found,
     cache !! cache_key agent spec = Some found ->
     worker_step (counting agent run_search) (keeping_log2 build_query)
       (keeping_log save_query_package) agent package_dir (Queued spec)
       (cache, (w, log))
     = (Ready spec found, (cache, (w, log))))
  ∧ (∀ specs w out cache w' log,
       sequential_loop (counting agent run_search) (keeping_log2 build_query)
         (keeping_log save_query_package) agent package_dir specs [] (∅, (w, []))
       = (out, (cache, (w', log))) ->
       ∀ k, (successes k log <= 1)%nat)
  ∧ (∀ max_workers specs w final,
       rtc (pool_step (counting agent run_search) (keeping_log2 build_query)
              (keeping_log save_query_package) agent package_dir max_workers)
           (pool_init specs (w, [])) final ->
       ∀ k, (invocations k (pool_shared final).2.2 <= requests agent k specs)%nat).
Proof.
  split; [|split].
  - intros spec cache w log found Hc. cbn [worker_step]. by rewrite Hc.
  - intros specs w out cache w' log Hrun k.
    eapply (sequential_loop_cache_agrees run_search build_query save_query_package
              agent package_dir specs [] ∅ cache w w' [] log out); [|exact Hrun].
    intros k'. split; [|done]. unfold successes. simpl. lia.
  - intros max_workers specs w final Hrun k.
    pose proof (pool_run_agrees run_search build_query save_query_package agent
                  package_dir max_workers specs _ _ Hrun (pool_init_agrees agent specs w))
      as [_ Hinv].
    etrans; [apply Hinv|apply past_requests_le].
Qed.

Lemma search_cache_bounds_witness :
  (successes (cache_key example_agent spec_q2)
     (sequential_loop (counting example_agent example_search)
        (keeping_log2 example_build) (keeping_log example_save) example_agent
        false [spec_two_queries; spec_q2] [] (∅, (tt, []))).2.2.2 <= 1)%nat.
Proof.
  destruct (sequential_loop (counting example_agent example_search)
              (keeping_log2 example_build) (keeping_log example_save) example_agent
              false [spec_two_queries; spec_q2] [] (∅, (tt, [])))
    as [out [cache [w' log]]] eqn:Hrun.
  exact (proj1 (proj2 (search_cache_bounds example_search example_build example_save
                         example_agent false))
           [spec_two_queries; spec_q2] tt out cache w' log Hrun
           (cache_key example_agent spec_q2)).
Defined.

(** ** Patterns *)

Lemma match_here_simple_prev (pat : Re.pattern) (prev prev' : option N) (s : pystr) :
  Forall simple_atom pat -> Re.match_here pat prev s = Re.match_here pat prev' s.
Proof.
  intros Hs. revert prev prev' s.
  induction Hs as [|a rest Ha _ IH]; intros prev prev' s; [done|].
  destruct a as [p|p|ps|]; [done| |done|done].
  cbn [Re.match_here]. revert prev prev'.
  induction s as [|c t IHs]; intros prev prev'; [by apply IH|].
  destruct (p c); [|by apply IH].
  match goal with |- context [match ?x with Some _ => _ | None => _ end] =>
    destruct x end; [done|by apply IH].
Qed.

Lemma match_here_sound (pat : Re.pattern) (prev : option N) (s : pystr) (n : nat) :
  Forall simple_atom pat -> Re.match_here pat prev s = Some n -> matches pat s n.
Proof.
  intros Hs. revert prev s n.
  induction Hs as [|a rest Ha _ IH]; intros prev s n.
  - intros [= <-]. constructor.
  - destruct a as [p|p| |]; try done.
    + cbn [Re.match_here]. destruct s as [|c t]; [done|].
      destruct (p c) eqn:Hp; [|done].
      destruct (Re.match_here rest (Some c) t) as [m|] eqn:Hm; [|done].
      intros [= <-]. constructor; [done|by eapply IH].
    + cbn [Re.match_here]. revert prev n.
      induction s as [|c t IHs]; intros prev n.
      * intros H. apply matches_star_done. by eapply IH.
      * destruct (p c) eqn:Hp; [|intros H; apply matches_star_done; by eapply IH].
        match goal with |- context [match ?x with Some _ => _ | None => _ end] =>
          destruct x as [m|] eqn:Hm end.
        -- intros [= <-]. apply matches_star_more; [done|]. by eapply IHs.
        -- intros H. apply matches_star_done. by eapply IH.
Qed.

Lemma match_here_complete (pat : Re.pattern) (prev : option N) (s : pystr) (n : nat) :
  Forall simple_atom pat -> matches pat s n -> is_Some (Re.match_here pat prev s).
Proof.
  intros Hs Hm. revert prev. induction Hm as [s|p rest c t n Hp Hm IH|p rest s n Hm IH
                                             |p rest c t n Hp Hm IH]; intros prev.
  - by eexists.
  - apply Forall_cons in Hs as [_ Hs]. cbn [Re.match_here]. rewrite Hp.
    destruct (IH Hs (Some c)) as [m ->]. by eexists.
  - pose proof Hs as Hs'. apply Forall_cons in Hs' as [_ Hs'].
    cbn [Re.match_here]. destruct s as [|c t]; [by apply IH|].
    destruct (p c); [|by apply IH].
    match goal with |- context [match ?x with Some _ => _ | None => _ end] =>
      destruct x as [m|] end; [by eexists|by apply IH].
  - specialize (IH Hs (Some c)). cbn [Re.match_here] in IH |- *. rewrite Hp.
    destruct IH as [m ->]. by eexists.
Qed.

(** A match consumes only characters that some atom accepts: it ends
    before a character that every atom rejects, and does not depend on what
    comes from there on. *)
Lemma matches_before_rejected (pat : Re.pattern) (a : pystr) (i : N) (y z : pystr)
    (n : nat) :
  Forall (fun atom => atom_accepts atom i = false) pat ->
  matches pat (a ++ i :: y) n -> matches pat (a ++ z) n.
Proof.
  intros Hrej Hm. remember (a ++ i :: y) as s eqn:Hs. revert a Hs.
  induction Hm as [s|p rest c t n Hp Hm IH|p rest s n Hm IH|p rest c t n Hp Hm IH];
    intros a Hs.
  - constructor.
  - apply Forall_cons in Hrej as [Hi Hrej]. simpl in Hi.
    destruct a as [|c' a']; simpl in Hs; injection Hs as -> ->; [congruence|].
    simpl. constructor; [done|]. by apply IH.
  - apply matches_star_done. apply IH; [|done]. by apply Forall_cons in Hrej as [_ ?].
  - pose proof Hrej as Hrej'. apply Forall_cons in Hrej' as [Hi _]. simpl in Hi.
    destruct a as [|c' a']; simpl in Hs; injection Hs as -> ->; [congruence|].
    simpl. apply matches_star_more; [done|]. by apply IH.
Qed.

Lemma matches_positive (pat : Re.pattern) (s : pystr) (n : nat) (p : N -> bool)
    (rest : Re.pattern) :
  pat = Re.Chr p :: rest -> matches pat s n -> (0 < n)%nat.
Proof. intros -> Hm. inversion Hm; lia. Qed.

Lemma nostart_app (re : Re.regex) (kept rest : pystr) :
  nostart re (kept ++ rest) = nostart_before re kept rest && nostart re rest.
Proof.
  induction kept as [|c k IH]; [done|]. cbn [app nostart nostart_before].
  rewrite IH. by rewrite andb_assoc.
Qed.

Lemma nostart_before_app (re : Re.regex) (a b rest : pystr) :
  nostart_before re (a ++ b) rest
  = nostart_before re a (b ++ rest) && nostart_before re b rest.
Proof.
  induction a as [|c k IH]; [done|]. cbn [app nostart_before].
  rewrite IH, <- app_assoc. by rewrite andb_assoc.
Qed.

Section OnePattern.
Context (pat : Re.pattern) (p0 : N -> bool) (tail : Re.pattern).
Context (Hshape : pat = Re.Chr p0 :: tail) (Hsimple : Forall simple_atom pat).

Lemma match_at_one (prev : option N) (s : pystr) :
  Re.match_at [pat] prev s = Re.match_here pat None s.
Proof using Hsimple.
  cbn [Re.match_at]. rewrite (match_here_simple_prev pat prev None s Hsimple).
  by destruct (Re.match_here pat None s).
Qed.

Lemma starts_iff (s : pystr) : starts [pat] s = true <-> ∃ n, matches pat s n.
Proof using Hshape Hsimple.
  unfold starts. rewrite match_at_one. split.
  - destruct (Re.match_here pat None s) as [[|n]|] eqn:Hm; [done| |done].
    intros _. exists (S n). by eapply match_here_sound.
  - intros [n Hm]. pose proof (matches_positive _ _ _ _ _ Hshape Hm) as Hpos.
    destruct (match_here_complete pat None s n Hsimple Hm) as [m Hm'].
    rewrite Hm'. apply match_here_sound in Hm'; [|done].
    pose proof (matches_positive _ _ _ _ _ Hshape Hm'). destruct m; [lia|done].
Qed.

Lemma search_go_nostart (prev : option N) (s : pystr) :
  Re.search_go [pat] prev s = negb (nostart [pat] s).
Proof using Hsimple.
  revert prev. induction s as [|c t IH]; intros prev; [done|].
  cbn [Re.search_go nostart]. unfold starts. rewrite !match_at_one.
  rewrite (IH (Some c)).
  destruct (Re.match_here pat None (c :: t)) as [[|n]|]; simpl; try done.
Qed.

Lemma starts_rejected_head (r : N) (s : pystr) :
  p0 r = false -> starts [pat] (r :: s) = false.
Proof using Hshape.
  intros Hr. unfold starts. cbn [Re.match_at]. rewrite Hshape.
  cbn [Re.match_here]. by rewrite Hr.
Qed.

Lemma nostart_before_rejected (repl rest : pystr) :
  Forall (fun r => p0 r = false) repl -> nostart_before [pat] repl rest = true.
Proof using Hshape.
  induction 1 as [|r rs Hr _ IH]; [done|]. cbn [nostart_before app].
  by rewrite starts_rejected_head, IH.
Qed.

Lemma nostart_before_swap (kept : pystr) (c r : N) (t y : pystr) :
  Forall (fun a => atom_accepts a r = false) pat ->
  nostart_before [pat] kept (c :: t) = true ->
  nostart_before [pat] kept (r :: y) = true.
Proof using Hshape Hsimple.
  intros Hrej. induction kept as [|k ks IH]; [done|]. cbn [nostart_before].
  intros [Hk Hks]%andb_true_iff. rewrite (IH Hks), andb_true_r.
  apply negb_true_iff, not_true_iff_false. intros Hst.
  apply negb_true_iff, not_true_iff_false in Hk. apply Hk.
  apply starts_iff in Hst as [n Hm]. apply starts_iff. exists n.
  by eapply (matches_before_rejected pat (k :: ks) r y (c :: t)).
Qed.

(** After [re.sub] with a replacement made of characters that the pattern
    rejects, no match of the pattern is left. *)
Lemma sub_go_nostart (repl : pystr) (s kept : pystr) (skip : nat) (prev : option N) :
  repl ≠ [] ->
  Forall (fun r => Forall (fun a => atom_accepts a r = false) pat) repl ->
  nostart_before [pat] kept (drop skip s) = true ->
  nostart [pat] (kept ++ Re.sub_go [pat] repl skip prev s) = true.
Proof using Hshape Hsimple.
  intros Hne Hrej. revert kept skip prev.
  assert (Hrej0 : Forall (fun r => p0 r = false) repl).
  { eapply Forall_impl; [exact Hrej|]. intros r Hr. rewrite Hshape in Hr.
    by apply Forall_cons in Hr as [Hr _]. }
  induction s as [|c t IH]; intros kept skip prev Hkept.
  - rewrite drop_nil in Hkept. cbn [Re.sub_go]. by rewrite nostart_app, Hkept.
  - cbn [Re.sub_go]. destruct skip as [|k]; [|by apply IH].
    rewrite drop_0 in Hkept.
    destruct (Re.match_at [pat] prev (c :: t)) as [[|n]|] eqn:Hm.
    + replace (kept ++ c :: Re.sub_go [pat] repl 0 (Some c) t)
        with ((kept ++ [c]) ++ Re.sub_go [pat] repl 0 (Some c) t)
        by (by rewrite <- app_assoc).
      apply IH. rewrite drop_0, nostart_before_app. cbn [app nostart_before].
      rewrite Hkept. unfold starts. rewrite match_at_one.
      rewrite match_at_one in Hm. by rewrite Hm.
    + rewrite nostart_app, nostart_app.
      rewrite (nostart_before_rejected repl _ Hrej0).
      pose proof (IH [] n (Some c) eq_refl) as HX. cbn [app] in HX. rewrite HX.
      destruct repl as [|r0 rs]; [done|]. cbn [app].
      rewrite (nostart_before_swap kept c r0 t _); [done| |done].
      by apply Forall_cons in Hrej as [? _].
    + replace (kept ++ c :: Re.sub_go [pat] repl 0 (Some c) t)
        with ((kept ++ [c]) ++ Re.sub_go [pat] repl 0 (Some c) t)
        by (by rewrite <- app_assoc).
      apply IH. rewrite drop_0, nostart_before_app. cbn [app nostart_before].
      rewrite Hkept. unfold starts. rewrite match_at_one.
      rewrite match_at_one in Hm. by rewrite Hm.
Qed.

Lemma sub_removes_matches (repl s : pystr) :
  repl ≠ [] ->
  Forall (fun r => Forall (fun a => atom_accepts a r = false) pat) repl ->
  Re.search [pat] (Re.sub [pat] repl s) = false.
Proof using Hshape Hsimple.
  intros Hne Hrej. unfold Re.search, Re.sub. rewrite search_go_nostart.
  apply negb_false_iff. by apply (sub_go_nostart repl s [] 0 None).
Qed.
End OnePattern.

(** Where the pattern does not match, [re.sub] changes nothing. *)
Lemma sub_go_no_match (re : Re.regex) (repl : pystr) (prev : option N) (s : pystr) :
  Re.search_go re prev s = false -> Re.sub_go re repl 0 prev s = s.
Proof.
  revert prev. induction s as [|c t IH]; intros prev; [done|].
  cbn [Re.search_go Re.sub_go].
  destruct (Re.match_at re prev (c :: t)) as [[|n]|]; try done;
    intros H; by rewrite IH.
Qed.

(** ** Terminology scrubbing of one text *)

Lemma _replace_clean (s : pystr) : Re.search gt_term_re (_replace s) = false.
Proof.
  unfold _replace, gt_term_re.
  eapply sub_removes_matches.
  - reflexivity.
  - vm_compute. repeat constructor.
  - vm_compute. discriminate.
  - vm_compute. repeat constructor.
Qed.

Lemma _replace_no_match (s : pystr) :
  Re.search gt_term_re s = false -> _replace s = s.
Proof. apply sub_go_no_match. Qed.

Lemma _replace_idempotent (s : pystr) : _replace (_replace s) = _replace s.
Proof. apply _replace_no_match, _replace_clean. Qed.

(** ** Dictionaries and the rewriting combinators *)

Lemma eqb_eq (a b : pystr) : Py.eqb a b = true <-> a = b.
Proof. unfold Py.eqb. apply bool_decide_eq_true. Qed.

Lemma eqb_refl (a : pystr) : Py.eqb a a = true.
Proof. by apply eqb_eq. Qed.

Lemma eqb_ne (a b : pystr) : a ≠ b -> Py.eqb a b = false.
Proof. intros H. unfold Py.eqb. by apply bool_decide_eq_false. Qed.

Lemma get_set_eq (k : pystr) (v : json) (d : dict) : Dict.get k (Dict.set k v d) = Some v.
Proof.
  induction d as [|[k' v'] t IH]; cbn [Dict.get Dict.set].
  - by rewrite eqb_refl.
  - destruct (Py.eqb k k') eqn:E; cbn [Dict.get]; [by rewrite eqb_refl|by rewrite E].
Qed.

Lemma get_set_ne (k k' : pystr) (v : json) (d : dict) :
  k ≠ k' -> Dict.get k (Dict.set k' v d) = Dict.get k d.
Proof.
  intros Hne. induction d as [|[k0 v0] t IH]; cbn [Dict.get Dict.set].
  - by rewrite eqb_ne.
  - destruct (Py.eqb k' k0) eqn:E; cbn [Dict.get].
    + apply eqb_eq in E as <-. by rewrite !eqb_ne.
    + by rewrite IH.
Qed.

Lemma get_rewrite_str_ne (f : pystr -> pystr) (k k' : pystr) (d : dict) :
  k ≠ k' -> Dict.get k (rewrite_str f k' d) = Dict.get k d.
Proof.
  intros Hne. unfold rewrite_str.
  destruct (Dict.get k' d) as [[]|]; try done. by apply get_set_ne.
Qed.

Lemma get_rewrite_strs_ne (f : pystr -> pystr) (k k' : pystr) (d : dict) :
  k ≠ k' -> Dict.get k (rewrite_strs f k' d) = Dict.get k d.
Proof.
  intros Hne. unfold rewrite_strs.
  destruct (Dict.get k' d) as [[]|]; try done. by apply get_set_ne.
Qed.

Lemma get_in_block_ne (g : dict -> dict) (k k' : pystr) (d : dict) :
  k ≠ k' -> Dict.get k (in_block k' g d) = Dict.get k d.
Proof.
  intros Hne. unfold in_block.
  destruct (get_or k' d (JDict [])); try done. by apply get_set_ne.
Qed.

Lemma get_rewrite_str_eq (f : pystr -> pystr) (k : pystr) (d : dict) (s : pystr) :
  Dict.get k (rewrite_str f k d) = Some (JStr s) -> ∃ s0, s = f s0.
Proof.
  unfold rewrite_str. destruct (Dict.get k d) as [[]|] eqn:E; try congruence.
  rewrite get_set_eq. intros [= <-]. eauto.
Qed.

Lemma get_rewrite_strs_eq (f : pystr -> pystr) (k : pystr) (d : dict) (l : list json) :
  Dict.get k (rewrite_strs f k d) = Some (JList l) ->
  Forall (fun x => ∃ s0, x = JStr (f s0)) l.
Proof.
  unfold rewrite_strs. destruct (Dict.get k d) as [[]|] eqn:E; try congruence.
  rewrite get_set_eq. intros [= <-]. apply Forall_forall. intros x Hx.
  apply list_elem_of_In, in_map_iff in Hx as (y & <- & _). eauto.
Qed.

Lemma get_in_block_eq (g : dict -> dict) (k : pystr) (d : dict) (v : json) :
  Dict.get k (in_block k g d) = Some v ->
  (∃ b, v = JDict (g b)) ∨ (∀ b, v ≠ JDict b).
Proof.
  unfold in_block, get_or.
  destruct (Dict.get k d) as [v0|] eqn:E.
  - destruct (truthy v0) eqn:Ht.
    + destruct v0; try (rewrite E; intros [= <-]; right; congruence).
      rewrite get_set_eq. intros [= <-]. eauto.
    + rewrite get_set_eq. intros [= <-]. eauto.
  - rewrite get_set_eq. intros [= <-]. eauto.
Qed.

(** ** Terminology scrubbing of a payload *)

Ltac key_ne :=
  let H := fresh in intros H; vm_compute in H; discriminate H.

Ltac peel :=
  repeat first
    [ rewrite get_in_block_ne by key_ne
    | rewrite get_rewrite_str_ne by key_ne
    | rewrite get_rewrite_strs_ne by key_ne ].

Lemma term_free_text (f : pystr -> pystr) (k : pystr) (d : dict) (v : json) :
  (∀ s, term_free (f s)) ->
  Dict.get k (rewrite_str f k d) = Some v -> free_of_term Text v.
Proof.
  intros Hf E. destruct v; try done. apply get_rewrite_str_eq in E as [s0 ->].
  apply Hf.
Qed.

Lemma term_free_texts (f : pystr -> pystr) (k : pystr) (d : dict) (v : json) :
  (∀ s, term_free (f s)) ->
  Dict.get k (rewrite_strs f k d) = Some v -> free_of_term TextList v.
Proof.
  intros Hf E. destruct v; try done. apply get_rewrite_strs_eq in E.
  eapply Forall_impl; [exact E|]. intros x [s0 ->]. eauto.
Qed.

Ltac scrub_leaf E :=
  first [ apply (term_free_text _ _ _ _ _replace_clean E)
        | apply (term_free_texts _ _ _ _ _replace_clean E) ].

Ltac scrub_field :=
  cbn beta; cbn [lookup_path rewrite_str_keys rewrite_strs_keys fold_left]; peel;
  lazymatch goal with
  | |- match Dict.get ?k ?d with _ => _ end = Some _ -> _ =>
      let E := fresh "E" in
      let w := fresh "w" in
      destruct (Dict.get k d) as [w|] eqn:E; [|discriminate];
      first
        [ intros [= <-]; scrub_leaf E
        | let b := fresh "b" in
          let Hnd := fresh "Hnd" in
          apply get_in_block_eq in E as [[b ->]|Hnd];
          [ scrub_field
          | destruct w; try discriminate; by edestruct Hnd ] ]
  end.




(** ** Removal of the primary from the provided materials *)

Lemma names_primary_false (primary_url p_host primary_title : pystr) (entry : json) :
  names_primary primary_url p_host primary_title entry = false
  <-> clear_of_primary primary_url p_host primary_title entry.
Proof.
  unfold names_primary, clear_of_primary, entry_urls, entry_text.
  set (text := if truthy entry then py_str entry else []).
  set (urls := Re.findall url_re text).
  rewrite !orb_false_iff. split.
  - intros [[Hu Hh] Ht]. split; [|split].
    + intros u Hin Heq.
      assert (existsb (fun u => Py.eqb (Py.strip u) primary_url) urls = true) as Hex.
      { apply existsb_exists. exists u. split; [by apply list_elem_of_In|].
        by apply eqb_eq. }
      congruence.
    + intros Hne. destruct p_host as [|c h]; [done|].
      by apply bool_decide_eq_false in Hh.
    + intros Hne. by destruct primary_title.
  - intros (Hu & Hh & Ht). split; [split|].
    + apply not_true_iff_false. intros Hex. apply existsb_exists in Hex as (u & Hin & Heq).
      apply (Hu u); [by apply list_elem_of_In|by apply eqb_eq].
    + destruct p_host as [|c h]; [done|]. apply bool_decide_eq_false. by apply Hh.
    + destruct primary_title as [|c t]; [done|]. by apply Ht.
Qed.

Lemma backfill_spec (primary_url p_host : pystr) (refs : list json) :
  ∀ acc out,
    backfill primary_url p_host refs acc = Ok out ->
    ∃ added, out = acc ++ added
             ∧ (length added <= length refs)%nat
             ∧ Forall (backfilled_from primary_url p_host refs) added.
Proof.
  induction refs as [|ref later IH]; intros acc out Hb; cbn [backfill] in Hb.
  - injection Hb as <-. exists []. by rewrite app_nil_r.
  - assert (Hskip : backfill primary_url p_host later acc = Ok out ->
                    ∃ added, out = acc ++ added
                             ∧ (length added <= length (ref :: later))%nat
                             ∧ Forall (backfilled_from primary_url p_host (ref :: later))
                                      added).
    { intros H. destruct (IH _ _ H) as (added & -> & Hlen & Hall).
      exists added. split; [done|]. split; [cbn [length]; lia|].
      eapply Forall_impl; [exact Hall|].
      intros e (r & u & t & Hin & Hrest). exists r, u, t.
      split; [by apply list_elem_of_further|exact Hrest]. }
    destruct ref as [| | | | |ref]; try (by apply Hskip).
    destruct (stripped_or (u8 "url") ref []) as [u|e] eqn:Hu; [|done].
    cbn [bind] in Hb. destruct u as [|c u]; [by apply Hskip|].
    destruct (Py.eqb (c :: u) primary_url
              || match p_host with [] => false | _ => Py.eqb (host_of (c :: u)) p_host end)
      eqn:Hdrop; [by apply Hskip|].
    apply orb_false_iff in Hdrop as [Hne Hh].
    destruct (stripped_or (u8 "title") ref (c :: u)) as [title|e] eqn:Ht; [|done].
    cbn [bind] in Hb.
    assert (Hnew : backfilled_from primary_url p_host (JDict ref :: later)
                     (JStr (title ++ u8 ": " ++ c :: u))).
    { exists ref, (c :: u), title. split; [by apply list_elem_of_here|].
      split; [done|]. split; [done|]. split.
      { intros Heq. apply eqb_eq in Heq. congruence. }
      split; [|done]. intros Hp Heq. destruct p_host; [done|].
      apply eqb_eq in Heq. congruence. }
    destruct (3 <=? length (acc ++ [JStr (title ++ u8 ": " ++ c :: u)]))%nat.
    + injection Hb as <-. exists [JStr (title ++ u8 ": " ++ c :: u)].
      split; [done|]. split; [cbn [length]; lia|]. by apply Forall_singleton.
    + destruct (IH _ _ Hb) as (added & -> & Hlen & Hall).
      exists (JStr (title ++ u8 ": " ++ c :: u) :: added).
      split; [by rewrite <- app_assoc|]. split; [cbn [length]; lia|].
      apply Forall_cons. split; [exact Hnew|].
      eapply Forall_impl; [exact Hall|].
      intros e (r & u0 & t & Hin & Hrest). exists r, u0, t.
      split; [by apply list_elem_of_further|exact Hrest].
Qed.

Lemma first_refs_length (v : json) (refs : list json) :
  first_refs v = Ok refs -> (length refs <= 3)%nat.
Proof.
  destruct v; try done; intros [= <-].
  - rewrite length_map, length_take. lia.
  - rewrite length_take. lia.
Qed.




(** ** Characters that a substitution cannot touch *)

Lemma pat_accepts_cons (a : Re.atom) (rest : Re.pattern) (l : pystr) :
  Forall (fun c => pat_accepts rest c = true) l ->
  Forall (fun c => pat_accepts (a :: rest) c = true) l.
Proof.
  intros H. eapply Forall_impl; [exact H|]. intros c Hc. cbn beta in Hc.
  unfold pat_accepts in *. cbn [existsb]. rewrite Hc. apply orb_true_r.
Qed.

Lemma take_chars_accepts (ps : list (N -> bool)) :
  ∀ prev s k prev' s',
    Re.take_chars ps prev s = Some (k, prev', s') ->
    s' = drop k s ∧ Forall (fun c => existsb (fun p => p c) ps = true) (take k s).
Proof.
  induction ps as [|p ps IH]; intros prev s k prev' s'; cbn [Re.take_chars].
  - intros [= <- <- <-]. by split.
  - destruct s as [|c t]; [done|]. destruct (p c) eqn:Hp; [|done].
    destruct (Re.take_chars ps (Some c) t) as [[[m q] r]|] eqn:Ht; [|done].
    intros [= <- <- <-]. destruct (IH _ _ _ _ _ Ht) as [-> Hall].
    split; [done|]. cbn [take existsb]. apply Forall_cons. split.
    + by rewrite Hp.
    + eapply Forall_impl; [exact Hall|]. intros x Hx. cbn beta in Hx. rewrite Hx.
      apply orb_true_r.
Qed.

Lemma match_here_accepts (pat : Re.pattern) :
  ∀ prev s n,
    Re.match_here pat prev s = Some n ->
    Forall (fun c => pat_accepts pat c = true) (take n s).
Proof.
  induction pat as [|a rest IH]; intros prev s n.
  - intros [= <-]. by rewrite take_0.
  - destruct a as [p|p|ps|]; cbn [Re.match_here].
    + destruct s as [|c t]; [done|]. destruct (p c) eqn:Hp; [|done].
      destruct (Re.match_here rest (Some c) t) as [m|] eqn:Hm; [|done].
      intros [= <-]. cbn [take]. apply Forall_cons. split.
      * unfold pat_accepts. cbn [existsb atom_accepts]. by rewrite Hp.
      * apply pat_accepts_cons. by eapply IH.
    + revert prev n. induction s as [|c t IHs]; intros prev n.
      * intros H. apply pat_accepts_cons. by eapply IH.
      * destruct (p c) eqn:Hp; [|intros H; apply pat_accepts_cons; by eapply IH].
        match goal with |- context [match ?x with Some _ => _ | None => _ end] =>
          destruct x as [m|] eqn:Hm end.
        -- intros [= <-]. cbn [take]. apply Forall_cons. split.
           ++ unfold pat_accepts. cbn [existsb atom_accepts]. by rewrite Hp.
           ++ by eapply IHs.
        -- intros H. apply pat_accepts_cons. by eapply IH.
    + destruct (Re.take_chars ps prev s) as [[[k q] r]|] eqn:Ht;
        [|intros H; apply pat_accepts_cons; by eapply IH].
      destruct (Re.match_here rest q r) as [m|] eqn:Hm;
        [|intros H; apply pat_accepts_cons; by eapply IH].
      intros [= <-]. apply take_chars_accepts in Ht as [-> Hall].
      rewrite <- take_take_drop. apply Forall_app. split.
      * eapply Forall_impl; [exact Hall|]. intros x Hx. unfold pat_accepts.
        cbn [existsb atom_accepts]. cbn beta in Hx. by rewrite Hx.
      * apply pat_accepts_cons. by eapply IH.
    + destruct (xorb _ _); [|done]. intros H. apply pat_accepts_cons. by eapply IH.
Qed.

Lemma match_at_accepts (re : Re.regex) (prev : option N) (s : pystr) (n : nat) :
  Re.match_at re prev s = Some n ->
  Forall (fun c => re_accepts re c = true) (take n s).
Proof.
  induction re as [|pat alts IH]; cbn [Re.match_at]; [done|].
  destruct (Re.match_here pat prev s) as [m|] eqn:Hm.
  - intros [= <-]. apply match_here_accepts in Hm.
    eapply Forall_impl; [exact Hm|]. intros c Hc. cbn beta in Hc.
    unfold re_accepts. cbn [existsb]. by rewrite Hc.
  - intros H. eapply Forall_impl; [exact (IH H)|]. intros c Hc. cbn beta in Hc.
    unfold re_accepts in *. cbn [existsb]. rewrite Hc. apply orb_true_r.
Qed.

Lemma occurrences_cons (c x : N) (s : pystr) :
  occurrences c (x :: s) = ((if (x =? c)%N then 1 else 0) + occurrences c s)%nat.
Proof. unfold occurrences. cbn [List.filter]. by destruct (x =? c). Qed.

Lemma occurrences_app (c : N) (a b : pystr) :
  occurrences c (a ++ b) = (occurrences c a + occurrences c b)%nat.
Proof. unfold occurrences. by rewrite List.filter_app, length_app. Qed.

Lemma occurrences_rev (c : N) (s : pystr) : occurrences c (rev s) = occurrences c s.
Proof.
  induction s as [|x s IH]; [done|]. cbn [rev].
  rewrite occurrences_app, IH, !occurrences_cons. unfold occurrences at 2.
  cbn [List.filter length]. lia.
Qed.

Lemma occurrences_absent (c : N) (s : pystr) :
  Forall (fun x => (x =? c) = false) s -> occurrences c s = 0%nat.
Proof.
  induction 1 as [|x s Hx _ IH]; [done|]. by rewrite occurrences_cons, Hx, IH.
Qed.

(** A substitution keeps the occurrences of a character that no atom of
    the expression accepts and that the replacement does not have. *)
Lemma sub_go_occurrences (re : Re.regex) (repl : pystr) (c : N) :
  re_accepts re c = false ->
  occurrences c repl = 0%nat ->
  ∀ s skip prev,
    Forall (fun x => (x =? c) = false) (take skip s) ->
    occurrences c (Re.sub_go re repl skip prev s) = occurrences c s.
Proof.
  intros Hre Hrepl. induction s as [|x t IH]; intros skip prev Hskip; [done|].
  cbn [Re.sub_go]. destruct skip as [|k].
  - destruct (Re.match_at re prev (x :: t)) as [[|n]|] eqn:Hm.
    + rewrite !occurrences_cons. rewrite IH; [done|]. by rewrite take_0.
    + apply match_at_accepts in Hm. cbn [take] in Hm.
      assert (Hno : Forall (fun y => (y =? c) = false) (x :: take n t)).
      { eapply Forall_impl; [exact Hm|]. intros y Hy. cbn beta in Hy.
        destruct (y =? c) eqn:E; [|done]. apply N.eqb_eq in E. subst y. congruence. }
      apply Forall_cons in Hno as [Hx Hn].
      rewrite occurrences_app, Hrepl, occurrences_cons, Hx. by rewrite IH.
    + rewrite !occurrences_cons. rewrite IH; [done|]. by rewrite take_0.
  - cbn [take] in Hskip. apply Forall_cons in Hskip as [Hx Hk].
    rewrite occurrences_cons, Hx. by rewrite IH.
Qed.

Lemma sub_occurrences (re : Re.regex) (repl : pystr) (c : N) (s : pystr) :
  re_accepts re c = false ->
  occurrences c repl = 0%nat ->
  occurrences c (Re.sub re repl s) = occurrences c s.
Proof.
  intros Hre Hrepl. unfold Re.sub. by apply sub_go_occurrences.
Qed.

Lemma apply_rules_occurrences (rules : list (Re.regex * pystr)) (c : N) :
  Forall (fun rule => re_accepts rule.1 c = false ∧ occurrences c rule.2 = 0%nat) rules ->
  ∀ s, occurrences c (apply_rules rules s) = occurrences c s.
Proof.
  unfold apply_rules. induction 1 as [|[re repl] rules [Hre Hrepl] _ IH]; intros s; [done|].
  cbn [fold_left]. rewrite IH. by apply sub_occurrences.
Qed.

Lemma lstrip_occurrences (c : N) (s : pystr) :
  Py.isspace c = false -> occurrences c (Py.lstrip s) = occurrences c s.
Proof.
  intros Hc. induction s as [|x t IH]; [done|]. cbn [Py.lstrip].
  destruct (Py.isspace x) eqn:Hx; [|done].
  rewrite IH, occurrences_cons. destruct (x =? c) eqn:E; [|done].
  apply N.eqb_eq in E. congruence.
Qed.

Lemma strip_occurrences (c : N) (s : pystr) :
  Py.isspace c = false -> occurrences c (Py.strip s) = occurrences c s.
Proof.
  intros Hc. unfold Py.strip, Py.rstrip.
  by rewrite occurrences_rev, lstrip_occurrences, occurrences_rev, lstrip_occurrences.
Qed.

(** ** A field through the stages of the post-processing *)

Lemma get_setdefault_ne (k k' : pystr) (v : json) (d : dict) :
  k ≠ k' -> Dict.get k (Dict.setdefault k' v d) = Dict.get k d.
Proof.
  intros Hne. unfold Dict.setdefault. destruct (Dict.mem k' d); [done|].
  by apply get_set_ne.
Qed.

Lemma get_rewrite_present_ne (f : json -> json) (k k' : pystr) (d : dict) :
  k ≠ k' -> Dict.get k (rewrite_present f k' d) = Dict.get k d.
Proof.
  intros Hne. unfold rewrite_present. destruct (Dict.get k' d); [|done].
  by apply get_set_ne.
Qed.

Lemma get_rewrite_strs_or_empty_ne (f : pystr -> pystr) (k k' : pystr) (d : dict) :
  k ≠ k' -> Dict.get k (rewrite_strs_or_empty f k' d) = Dict.get k d.
Proof.
  intros Hne. unfold rewrite_strs_or_empty.
  destruct (get_or k' d (JList [])); try done. by apply get_set_ne.
Qed.

Lemma get_rewrite_str_val (f : pystr -> pystr) (k : pystr) (d : dict) :
  Dict.get k (rewrite_str f k d)
  = match Dict.get k d with
    | Some (JStr s) => Some (JStr (f s))
    | other => other
    end.
Proof.
  unfold rewrite_str. destruct (Dict.get k d) as [[]|] eqn:E; try done.
  by rewrite get_set_eq.
Qed.

Lemma get_rewrite_present_val (f : json -> json) (k : pystr) (d : dict) :
  Dict.get k (rewrite_present f k d) = f <$> Dict.get k d.
Proof.
  unfold rewrite_present. destruct (Dict.get k d) as [v|] eqn:E; cbn [fmap option_fmap option_map].
  - by rewrite get_set_eq.
  - done.
Qed.

Ltac peel_get :=
  repeat first
    [ rewrite get_set_ne by key_ne
    | rewrite get_setdefault_ne by key_ne
    | rewrite get_in_block_ne by key_ne
    | rewrite get_rewrite_str_ne by key_ne
    | rewrite get_rewrite_strs_ne by key_ne
    | rewrite get_rewrite_present_ne by key_ne
    | rewrite get_rewrite_strs_or_empty_ne by key_ne ].

(** The removal touches [inputs_and_resources] only. *)
Lemma drop_primary_get (payload payload' : dict) (k : pystr) :
  k ≠ u8 "inputs_and_resources" ->
  _drop_primary_from_provided_materials payload = Ok payload' ->
  Dict.get k payload' = Dict.get k payload.
Proof.
  intros Hne. unfold _drop_primary_from_provided_materials.
  destruct (dict_or_empty (u8 "ground_truth") payload) as [gt|]; [|done]. cbn [bind].
  destruct (dict_or_empty (u8 "primary") gt) as [prim|]; [|done]. cbn [bind].
  destruct (stripped_or (u8 "url") prim []) as [url|]; [|done]. cbn [bind].
  destruct (stripped_or (u8 "title") prim []) as [title|]; [|done]. cbn [bind].
  destruct url as [|c url]; [by intros [= <-]|].
  destruct (dict_or_empty (u8 "inputs_and_resources") payload) as [inres|]; [|done].
  cbn [bind].
  destruct (py_list _) as [items|]; [|done]. cbn [bind].
  match goal with |- bind ?x _ = _ -> _ => destruct x as [out|]; [|done] end.
  cbn [bind]. intros [= <-]. by apply get_set_ne.
Qed.

(** The notes and the level through the scrubbing and the scope rewriting. *)
Lemma scrub_get_notes (payload : dict) :
  Dict.get (u8 "notes") (_scrub_public_gt_terms payload)
  = match Dict.get (u8 "notes") payload with
    | Some (JStr s) => Some (JStr (_replace s))
    | other => other
    end.
Proof.
  unfold _scrub_public_gt_terms.
  cbn [rewrite_str_keys rewrite_strs_keys fold_left]. peel_get.
  rewrite get_rewrite_str_val. by peel_get.
Qed.

Lemma scrub_get_level (payload : dict) :
  Dict.get (u8 "level") (_scrub_public_gt_terms payload) = Dict.get (u8 "level") payload.
Proof.
  unfold _scrub_public_gt_terms.
  cbn [rewrite_str_keys rewrite_strs_keys fold_left]. by peel_get.
Qed.

Lemma sanitize_get_notes (payload : dict) (context : ContextBundle) :
  Dict.get (u8 "notes") (_sanitize_internal_scope payload context)
  = if _context_supports_internal_assets context then Dict.get (u8 "notes") payload
    else _replace_text <$> Dict.get (u8 "notes") payload.
Proof.
  unfold _sanitize_internal_scope.
  destruct (_context_supports_internal_assets context); [done|].
  cbn [rewrite_present_keys fold_left]. peel_get.
  rewrite get_rewrite_present_val. by peel_get.
Qed.

Lemma sanitize_get_level (payload : dict) (context : ContextBundle) :
  Dict.get (u8 "level") (_sanitize_internal_scope payload context)
  = Dict.get (u8 "level") payload.
Proof.
  unfold _sanitize_internal_scope.
  destruct (_context_supports_internal_assets context); [done|].
  cbn [rewrite_present_keys fold_left]. by peel_get.
Qed.

(** ** Repeated passes *)

Lemma enforce_off_L4 (payload : dict) :
  level_of payload ≠ u8 "L4" -> _enforce_sop_compliance payload = payload.
Proof.
  intros Hl. unfold _enforce_sop_compliance. fold (level_of payload).
  by rewrite (eqb_ne _ _ Hl).
Qed.

Lemma enforce_notes_L4 (payload : dict) :
  level_of payload = u8 "L4" ->
  Dict.get (u8 "notes") (_enforce_sop_compliance payload)
  = Some (JStr (Py.strip (Py.strip (py_str (get_or (u8 "notes") payload (JStr [])))
                          ++ u8 " " ++ notes_add))).
Proof.
  intros Hl. unfold _enforce_sop_compliance. fold (level_of payload).
  rewrite Hl, eqb_refl. cbn [negb]. rewrite get_set_eq.
  unfold get_or at 1. peel_get. by fold (get_or (u8 "notes") payload (JStr [])).
Qed.

Lemma replace_guard_sign (s : pystr) :
  occurrences guard_sign (_replace s) = occurrences guard_sign s.
Proof. by apply sub_occurrences. Qed.

Lemma replace_text_guard_sign (s : pystr) :
  occurrences guard_sign (apply_rules internal_patterns s) = occurrences guard_sign s.
Proof.
  apply apply_rules_occurrences. unfold internal_patterns.
  repeat (apply Forall_cons; split; [by split|]). apply Forall_nil_2.
Qed.

Lemma guarded_notes_sign (s : pystr) :
  occurrences guard_sign (Py.strip (Py.strip s ++ u8 " " ++ notes_add))
  = (occurrences guard_sign s + 2)%nat.
Proof.
  rewrite strip_occurrences by done.
  rewrite !occurrences_app, strip_occurrences by done. done.
Qed.

Ltac step_bind :=
  match goal with
  | |- bind ?x _ = Ok _ -> _ =>
      let E := fresh "E" in destruct x eqn:E; [cbn [bind]|done]
  end.

(** The post-processing is the three rewritings applied to a payload that
    has the notes of the generated object and the level of the
    specification. *)
Lemma post_process_shape (raw : dict) (spec : QuerySpec) (context : ContextBundle)
    (bundle : GroundTruthBundle) (cache : dict) (results : list SearchResult)
    (out : dict) :
  _post_process raw spec context bundle cache results = Ok out ->
  ∃ lvl assembled,
    normalized_level spec = Ok lvl
    ∧ out = _enforce_sop_compliance
              (_sanitize_internal_scope (_scrub_public_gt_terms assembled) context)
    ∧ Dict.get (u8 "notes") assembled = Dict.get (u8 "notes") raw
    ∧ Dict.get (u8 "level") assembled = Some (JStr lvl).
Proof.
  unfold _post_process. cbv zeta.
  destruct (normalized_level spec) as [lvl|]; [|done]. cbn [bind].
  repeat step_bind. intros [= <-].
  match goal with H : _drop_primary_from_provided_materials _ = Ok ?p |- _ =>
    exists lvl, p; split; [done|]; split; [done|]; split;
    [ rewrite (drop_primary_get _ _ (u8 "notes") ltac:(key_ne) H)
    | rewrite (drop_primary_get _ _ (u8 "level") ltac:(key_ne) H) ] end.
  - by peel_get.
  - peel_get. by rewrite get_set_eq.
Qed.

Lemma notes_of_get (payload : dict) (n : pystr) :
  notes_of payload = Some n <-> Dict.get (u8 "notes") payload = Some (JStr n).
Proof.
  unfold notes_of. destruct (Dict.get (u8 "notes") payload) as [[]|]; split; congruence.
Qed.

(** One pass at level L4: the notes of the result are a text with the
    guardrail clause, two signs more than the notes it was given. *)
Lemma pass_notes_L4 (raw : dict) (spec : QuerySpec) (context : ContextBundle)
    (bundle : GroundTruthBundle) (cache : dict) (results : list SearchResult)
    (out : dict) :
  normalized_level spec = Ok (u8 "L4") ->
  _post_process raw spec context bundle cache results = Ok out ->
  ∃ n, notes_of out = Some n
       ∧ (2 <= occurrences guard_sign n)%nat
       ∧ ∀ n0, notes_of raw = Some n0 ->
               occurrences guard_sign n = (occurrences guard_sign n0 + 2)%nat.
Proof.
  intros Hlvl Hpp.
  apply post_process_shape in Hpp as (lvl & p & Hl & -> & Hnotes & Hlevel).
  rewrite Hlvl in Hl. injection Hl as <-.
  set (q := _sanitize_internal_scope (_scrub_public_gt_terms p) context).
  assert (Hq : level_of q = u8 "L4").
  { unfold level_of, get_or, q. by rewrite sanitize_get_level, scrub_get_level, Hlevel. }
  pose proof (enforce_notes_L4 q Hq) as Hn.
  eexists. split; [by apply notes_of_get|]. rewrite guarded_notes_sign.
  split; [lia|]. intros n0 Hn0. apply notes_of_get in Hn0. f_equal.
  unfold get_or, q. rewrite sanitize_get_notes, scrub_get_notes, Hnotes, Hn0.
  destruct (_context_supports_internal_assets context);
    cbn [fmap option_fmap option_map _replace_text truthy].
  - rewrite <- (replace_guard_sign n0). by destruct (_replace n0).
  - rewrite <- (replace_guard_sign n0), <- (replace_text_guard_sign (_replace n0)).
    by destruct (apply_rules internal_patterns (_replace n0)).
Qed.

(** ** The scrubbing is a no-op on its own output *)

Lemma set_get_same (k : pystr) (v : json) (d : dict) :
  Dict.get k d = Some v -> Dict.set k v d = d.
Proof.
  induction d as [|[k' v'] t IH]; cbn [Dict.get Dict.set]; [done|].
  destruct (Py.eqb k k') eqn:E.
  - intros [= ->]. apply eqb_eq in E. by subst.
  - intros H. by rewrite IH.
Qed.

Lemma rewrite_str_noop (f : pystr -> pystr) (k : pystr) (d : dict) :
  match Dict.get k d with
  | Some (JStr s) => f s = s
  | _ => True
  end -> rewrite_str f k d = d.
Proof.
  unfold rewrite_str. destruct (Dict.get k d) as [[]|] eqn:E; try done.
  intros ->. by apply set_get_same.
Qed.

Lemma rewrite_strs_noop (f : pystr -> pystr) (k : pystr) (d : dict) :
  match Dict.get k d with
  | Some (JList l) => Forall (fun x => ∃ s, x = JStr s ∧ f s = s) l
  | _ => True
  end -> rewrite_strs f k d = d.
Proof.
  unfold rewrite_strs. destruct (Dict.get k d) as [[]|] eqn:E; try done.
  intros Hall. apply set_get_same. rewrite E. do 2 f_equal. clear E.
  induction Hall as [|x l (s & -> & Hs) _ IH]; [done|].
  cbn [map py_str]. by rewrite Hs, <- IH.
Qed.

Lemma in_block_noop (g : dict -> dict) (k : pystr) (d : dict) :
  match Dict.get k d with
  | Some (JDict b) => g b = b
  | Some v => truthy v = true
  | None => False
  end -> in_block k g d = d.
Proof.
  unfold in_block, get_or. destruct (Dict.get k d) as [v|] eqn:E; [|done].
  destruct v as [| | | | |b]; try (by intros ->).
  intros Hg. destruct b as [|kv b]; cbn [truthy].
  - apply set_get_same. by rewrite Hg.
  - apply set_get_same. by rewrite Hg.
Qed.

Lemma get_rewrite_strs_val (f : pystr -> pystr) (k : pystr) (d : dict) :
  Dict.get k (rewrite_strs f k d)
  = match Dict.get k d with
    | Some (JList l) => Some (JList (map (fun x => JStr (f (py_str x))) l))
    | other => other
    end.
Proof.
  unfold rewrite_strs. destruct (Dict.get k d) as [[]|] eqn:E; try done.
  by rewrite get_set_eq.
Qed.

Lemma get_in_block_val (g : dict -> dict) (k : pystr) (d : dict) :
  Dict.get k (in_block k g d)
  = match Dict.get k d with
    | Some (JDict b) => Some (JDict (g b))
    | Some v => if truthy v then Some v else Some (JDict (g []))
    | None => Some (JDict (g []))
    end.
Proof.
  unfold in_block, get_or. destruct (Dict.get k d) as [v|] eqn:E.
  - destruct v as [|bb|z|s|l|b]; cbn [truthy].
    + by rewrite get_set_eq.
    + destruct bb; [by rewrite E|by rewrite get_set_eq].
    + destruct (negb (z =? 0)%Z); [by rewrite E|by rewrite get_set_eq].
    + destruct s; [by rewrite get_set_eq|by rewrite E].
    + destruct l; [by rewrite get_set_eq|by rewrite E].
    + destruct b; by rewrite get_set_eq.
  - by rewrite get_set_eq.
Qed.

Ltac noop_str d :=
  subst d; cbn beta; peel_get; rewrite get_rewrite_str_val;
  lazymatch goal with
  | |- match (match Dict.get ?k ?d0 with _ => _ end) with _ => _ end =>
      destruct (Dict.get k d0) as [[]|]; try done; apply _replace_idempotent
  end.

Ltac noop_strs d :=
  subst d; cbn beta; peel_get; rewrite get_rewrite_strs_val;
  lazymatch goal with
  | |- match (match Dict.get ?k ?d0 with _ => _ end) with _ => _ end =>
      destruct (Dict.get k d0) as [[]|]; try done;
      apply Forall_forall;
      let x := fresh "x" in
      let Hx := fresh "Hx" in
      intros x Hx; apply list_elem_of_In, in_map_iff in Hx as (? & <- & _);
      eexists; split; [reflexivity|apply _replace_idempotent]
  end.

Ltac idem :=
  cbn beta; cbn [rewrite_str_keys rewrite_strs_keys fold_left];
  lazymatch goal with
  | |- _ = ?rhs =>
      let d := fresh "d" in
      set (d := rhs);
      repeat first
        [ rewrite (rewrite_str_noop _ _ d); [|noop_str d]
        | rewrite (rewrite_strs_noop _ _ d); [|noop_strs d]
        | rewrite (in_block_noop _ _ d);
          [|subst d; cbn beta; peel_get; rewrite get_in_block_val;
            lazymatch goal with
            | |- match (match Dict.get ?k ?d0 with _ => _ end) with _ => _ end =>
                let v := fresh "v" in
                destruct (Dict.get k d0) as [v|];
                [destruct v as [|[]|?|[]|[]|?]; cbn [truthy];
                 try (lazymatch goal with
                      | |- context [if ?c then _ else _] => destruct c eqn:?
                      end)|];
                first [done | idem]
            end] ];
      reflexivity
  end.

(** Scrubbing a payload that was scrubbed changes nothing. *)
Lemma scrub_idempotent (payload : dict) :
  _scrub_public_gt_terms (_scrub_public_gt_terms payload)
  = _scrub_public_gt_terms payload.
Proof. unfold _scrub_public_gt_terms. idem. Qed.

(** C2 (amended): what holds of repeated passes.  The terminology
    scrubbing is a no-op on its own output.  The compliance rewriting is a
    no-op on a payload whose level is not L4.  At level L4 the
    post-processing is never idempotent: every pass adds the guardrail
    clause to the notes, so the notes of a second pass over the output of
    the first have two more signs [U+2264] (the clause has two, no rewriting
    removes one) and the two payloads differ. *)
Theorem normalization_passes :
  (∀ payload,
     _scrub_public_gt_terms (_scrub_public_gt_terms payload)
     = _scrub_public_gt_terms payload)
  ∧ (∀ payload, level_of payload ≠ u8 "L4" -> _enforce_sop_compliance payload = payload)
  ∧ (∀ raw spec context bundle cache results once twice,
       normalized_level spec = Ok (u8 "L4") ->
       _post_process raw spec context bundle cache results = Ok once ->
       _post_process once spec context bundle cache results = Ok twice ->
       twice ≠ once
       ∧ ∃ n1 n2,
           notes_of once = Some n1 ∧ notes_of twice = Some n2
           ∧ occurrences guard_sign n2 = (occurrences guard_sign n1 + 2)%nat).
Proof.
  split; [exact scrub_idempotent|]. split; [exact enforce_off_L4|].
  intros raw spec context bundle cache results once twice Hl H1 H2.
  destruct (pass_notes_L4 _ _ _ _ _ _ _ Hl H1) as (n1 & Hn1 & _ & _).
  destruct (pass_notes_L4 _ _ _ _ _ _ _ Hl H2) as (n2 & Hn2 & _ & Hgrow).
  specialize (Hgrow n1 Hn1). split.
  - intros ->. rewrite Hn1 in Hn2. injection Hn2 as ->. lia.
  - by exists n1, n2.
Qed.

(** C2 (witness): two passes for a specification of level L4 and an empty
    generated object. *)
Lemma normalization_passes_witness :
  ∃ once twice,
    normalized_level spec_l4 = Ok (u8 "L4")
    ∧ _post_process [] spec_l4 example_context pdf_bundle [] [pdf_hit] = Ok once
    ∧ _post_process once spec_l4 example_context pdf_bundle [] [pdf_hit] = Ok twice
    ∧ twice ≠ once.
Proof.
  assert (Hl : normalized_level spec_l4 = Ok (u8 "L4")) by reflexivity.
  destruct (_post_process [] spec_l4 example_context pdf_bundle [] [pdf_hit])
    as [once|e] eqn:H1; [|vm_compute in H1; discriminate H1].
  destruct (_post_process once spec_l4 example_context pdf_bundle [] [pdf_hit])
    as [twice|e] eqn:H2.
  - exists once, twice. split; [exact Hl|]. split; [reflexivity|]. split; [exact H2|].
    exact (proj1 (proj2 (proj2 normalization_passes) _ _ _ _ _ _ _ _ Hl H1 H2)).
  - vm_compute in H1. injection H1 as <-. vm_compute in H2. discriminate H2.
Defined.

(** C2 (counterexample): for a specification of level L4 the first pass
    gives notes that are the guardrail clause, and the second pass over that
    payload gives notes with the clause twice.  At level L3 too the second
    pass differs from the first when the context names no internal asset:
    the scope clause that the first pass put into
    [allowed_external_research] is itself rewritten by the second, which
    then appends it again. *)
Lemma second_pass_differs :
  (∃ once twice,
     _post_process [] spec_l4 example_context pdf_bundle [] [pdf_hit] = Ok once
     ∧ _post_process once spec_l4 example_context pdf_bundle [] [pdf_hit] = Ok twice
     ∧ notes_of once = Some guardrail_clause
     ∧ notes_of twice = Some (guardrail_clause ++ u8 "  " ++ guardrail_clause)
     ∧ twice ≠ once)
  ∧ (∃ once twice,
       _post_process [] spec_q2 example_context pdf_bundle [] [pdf_hit] = Ok once
       ∧ _post_process once spec_q2 example_context pdf_bundle [] [pdf_hit] = Ok twice
       ∧ lookup_path [u8 "inputs_and_resources"; u8 "allowed_external_research"]
           (JDict once) = Some (JStr scope_clause)
       ∧ lookup_path [u8 "inputs_and_resources"; u8 "allowed_external_research"]
           (JDict twice)
         = Some (JStr (apply_rules internal_patterns scope_clause ++ scope_clause))
       ∧ twice ≠ once).
Proof.
  split.
  - eexists. eexists. split; [vm_compute; reflexivity|].
    split; [vm_compute; reflexivity|].
    split; [vm_compute; reflexivity|]. split; [vm_compute; reflexivity|].
    intros H. apply (f_equal notes_of) in H. vm_compute in H. discriminate H.
  - eexists. eexists. split; [vm_compute; reflexivity|].
    split; [vm_compute; reflexivity|].
    split; [vm_compute; reflexivity|]. split; [vm_compute; reflexivity|].
    intros H.
    apply (f_equal (fun p => lookup_path [u8 "inputs_and_resources";
                                          u8 "allowed_external_research"] (JDict p))) in H.
    vm_compute in H. discriminate H.
Qed.
